(** * The CViSB 2020 workshop notebooks: the ab[x] tutorial and the Zika
      plasmablast analysis

    A shallow embedding of the data-handling code of the two notebooks
    (the code cells of [abx_tutorial] and [zika_plasmablasts]) and of the
    grouping components the notebooks call in the [abutils] library, with
    the properties of the specification stated and proved over them.

    Python values are embedded as follows: an exception is a value of
    [exn] carried by the [result] monad; a [dict] with string keys is a
    [gmap string _]; a Python list is a [list]; objects that are mutated in
    place live in an explicit store and are referred to by location. *)

From stdpp Require Import base option list gmap strings fin_maps sorting.
From Stdlib Require Import ZArith QArith Lia Permutation.
From Equations Require Import Equations.

Set Warnings "-register-all".
Local Open Scope string_scope.
Local Open Scope list_scope.

(** ** Python exceptions and results *)

Inductive exn : Set :=
| KeyError
| TypeError
| ValueError
| IndexError
| AttributeError
| OverflowError.

Inductive result (A : Type) : Type :=
| Ok (a : A)
| Raise (e : exn).
Arguments Ok {A} _.
Arguments Raise {A} _.

#[global] Instance result_ret : MRet result := fun _ a => Ok a.
#[global] Instance result_bind : MBind result := fun _ _ f r =>
  match r with
  | Ok a => f a
  | Raise e => Raise e
  end.

Definition raises {A} (r : result A) : bool :=
  match r with
  | Ok _ => false
  | Raise _ => true
  end.

(** ** Python strings *)

(** [strip_prefix p s] is [Some rest] when [s = p ++ rest]
    ([s.startswith(p)]). *)
Fixpoint strip_prefix (p s : string) : option string :=
  match p, s with
  | EmptyString, _ => Some s
  | String _ _, EmptyString => None
  | String a p', String b s' =>
      if Ascii.eqb a b then strip_prefix p' s' else None
  end.

(** [sub in s] *)
Fixpoint contains (sub s : string) : bool :=
  match strip_prefix sub s with
  | Some _ => true
  | None =>
      match s with
      | EmptyString => false
      | String _ s' => contains sub s'
      end
  end.

(** [s.split(delim)[0]]: the text of [s] before the first occurrence of
    [delim], all of [s] when [delim] does not occur. *)
Fixpoint split_head (delim s : string) : string :=
  match strip_prefix delim s with
  | Some _ => EmptyString
  | None =>
      match s with
      | EmptyString => EmptyString
      | String c s' => String c (split_head delim s')
      end
  end.

(** [s.replace(old, new)] for a non-empty [old]: every occurrence of [old],
    scanning from the left without overlap, is replaced.  [skip] counts the
    characters of a matched occurrence that are still to be dropped. *)
Fixpoint replace_from (skip : nat) (old new s : string) : string :=
  match s with
  | EmptyString => EmptyString
  | String c s' =>
      match skip with
      | S k => replace_from k old new s'
      | O =>
          match strip_prefix old s with
          | Some _ => new +:+ replace_from (String.length old - 1) old new s'
          | None => String c (replace_from 0 old new s')
          end
      end
  end.

Definition replace (old new s : string) : string := replace_from 0 old new s.

(** ** Annotated values and the [Sequence] object *)

(** The tagged values of a record's annotations (the JSON data model).
    [num] is the type of Python numbers: [int], [float] and [bool],
    which is a kind of [int]. *)
Inductive value (num : Type) : Type :=
| VNone
| VNum (n : num)
| VStr (s : string)
| VList (l : list (value num))
| VDict (d : gmap string (value num)).
Arguments VNone {num}.
Arguments VNum {num} _.
Arguments VStr {num} _.
Arguments VList {num} _.
Arguments VDict {num} _.

(** [abutils.core.sequence.Sequence], as far as the notebooks use it:
    [s.id], [s.sequence] and the annotations behind [s[key]]. *)
Record Sequence (num : Type) : Type := mkSequence {
  id : string;
  sequence : string;
  annotations : gmap string (value num)
}.
Arguments mkSequence {num} _ _ _.
Arguments id {num} _.
Arguments sequence {num} _.
Arguments annotations {num} _.

(** What [Sequence.__getitem__] does for a key that is not annotated is
    decided in the library: both conventions, raising [KeyError] like a
    [dict] and answering [None], are covered. *)
Inductive missing_key : Set :=
| MissingRaises
| MissingIsNone.

Section Values.
Context {num : Type}.
Variable miss : missing_key.

(** [s[key]] on a [Sequence] *)
Definition seq_getitem (s : Sequence num) (key : string) : result (value num) :=
  match annotations s !! key with
  | Some v => Ok v
  | None =>
      match miss with
      | MissingRaises => Raise KeyError
      | MissingIsNone => Ok VNone
      end
  end.

(** [v[key]] on an annotation value: only a [dict] can be subscripted by
    a string. *)
Definition getitem (v : value num) (key : string) : result (value num) :=
  match v with
  | VDict d =>
      match d !! key with
      | Some x => Ok x
      | None => Raise KeyError
      end
  | _ => Raise TypeError
  end.

(** [o[key]] where [o] is a [Sequence] or [None] *)
Definition opt_getitem (o : option (Sequence num)) (key : string) : result (value num) :=
  match o with
  | Some s => seq_getitem s key
  | None => Raise TypeError
  end.

(** [s.id = new_id] *)
Definition set_id (s : Sequence num) (new_id : string) : Sequence num :=
  mkSequence new_id (sequence s) (annotations s).

(** [s[key] = v] *)
Definition seq_setitem (s : Sequence num) (key : string) (v : value num) : Sequence num :=
  mkSequence (id s) (sequence s) (<[key := v]> (annotations s)).

(** [v == text] for a string literal [text] *)
Definition eq_str (v : value num) (text : string) : bool :=
  match v with
  | VStr s => String.eqb s text
  | _ => false
  end.
End Values.

(** * The Zika plasmablast notebook *)

Module Zika.

(** ** Donors and colors *)

Definition donors : list string := ["donor_1"; "donor_2"; "donor_3"; "donor_4"].
Definition colors : list string := ["#004E64"; "#5FAD56"; "#3AAED8"; "#F78154"].

(** [{d: c for d, c in zip(donors, colors)}] *)
Definition color_dict : gmap string string := list_to_map (zip donors colors).

(** [color_dict[subject]] *)
Definition color_of (subject : string) : result string :=
  match color_dict !! subject with
  | Some c => Ok c
  | None => Raise KeyError
  end.

(** ** Pairs and lineages as the notebook reads them *)

(** A [Pair] loaded from the pickle: the notebook reads the attributes
    [is_pair], [heavy], [light] (a [Sequence] or [None]) and [subject]. *)
Record Pair (num : Type) : Type := mkPair {
  is_pair : bool;
  heavy : option (Sequence num);
  light : option (Sequence num);
  subject : string
}.
Arguments mkPair {num} _ _ _ _.
Arguments is_pair {num} _.
Arguments heavy {num} _.
Arguments light {num} _.
Arguments subject {num} _.

(** A [Lineage]: the notebook reads [name] and [heavies], the list of the
    lineage's pairs that carry a heavy chain. *)
Record Lineage (num : Type) : Type := mkLineage {
  name : string;
  heavies : list (Pair num)
}.
Arguments mkLineage {num} _ _.
Arguments name {num} _.
Arguments heavies {num} _.

(** One row of the data frame built by [get_nt_mutations] *)
Record MutRow (num : Type) : Type := mkMutRow {
  muts : value num;
  donor : string;
  color : string
}.
Arguments mkMutRow {num} _ _ _.
Arguments muts {num} _.
Arguments donor {num} _.
Arguments color {num} _.

(** The four lists filled by the first loop of [mutation_bubbleplot] *)
Record BubbleData (num : Type) : Type := mkBubbleData {
  xs : list num;
  ys : list num;
  cs : list string;
  areas : list Z
}.
Arguments mkBubbleData {num} _ _ _ _.
Arguments xs {num} _.
Arguments ys {num} _.
Arguments cs {num} _.
Arguments areas {num} _.

Section Donors.
Context {num : Type}.

(** [d1_pairs = [p for p in pairs if p.subject == 'donor_1']], and the same
    for the other three donors *)
Definition d1_pairs (pairs : list (Pair num)) : list (Pair num) :=
  List.filter (λ p, String.eqb (subject p) "donor_1") pairs.

Definition d2_pairs (pairs : list (Pair num)) : list (Pair num) :=
  List.filter (λ p, String.eqb (subject p) "donor_2") pairs.

Definition d3_pairs (pairs : list (Pair num)) : list (Pair num) :=
  List.filter (λ p, String.eqb (subject p) "donor_3") pairs.

Definition d4_pairs (pairs : list (Pair num)) : list (Pair num) :=
  List.filter (λ p, String.eqb (subject p) "donor_4") pairs.

(** [all_lineages = d1_lineages + d2_lineages + d3_lineages + d4_lineages] *)
Definition all_lineages (d1_lineages d2_lineages d3_lineages d4_lineages : list (Lineage num))
  : list (Lineage num) :=
  ((d1_lineages ++ d2_lineages) ++ d3_lineages) ++ d4_lineages.
End Donors.

Section Aggregation.
Context {num : Type}.
Variable miss : missing_key.
(** [100. - v] and [a < b] on Python numbers.  The subtraction from the
    float [100.] gives a float or raises: an [int] too large for a float
    raises [OverflowError]. *)
Variable sub100 : num → result num.
Variable ltb : num → num → bool.

(** [p.heavy is not None] *)
Definition has_heavy (p : Pair num) : bool :=
  match heavy p with
  | Some _ => true
  | None => false
  end.

(** [p is not None], for [p] an element of a list of pairs *)
Definition is_not_None (p : Pair num) : bool := true.

(** The dict built for one pair [s]:
    [{'muts': s.<chain>['var_muts_nt']['num'],
      'donor': s.subject.replace('donor_', ''),
      'color': color_dict[s.subject]}] *)
Definition mut_row (chain_of : Pair num → option (Sequence num)) (s : Pair num)
  : result (MutRow num) :=
  a ← opt_getitem miss (chain_of s) "var_muts_nt";
  m ← getitem a "num";
  let d := replace "donor_" "" (subject s) in
  c ← color_of (subject s);
  mret (mkMutRow m d c).

(** [get_nt_mutations(pairs, chain, just_pairs=True)]; the result is the
    list of rows handed to [pd.DataFrame]. *)
Definition get_nt_mutations (pairs : list (Pair num)) (chain : string)
    (just_pairs : bool) : result (list (MutRow num)) :=
  let pairs := if just_pairs then List.filter is_pair pairs else pairs in
  if String.eqb chain "heavy" then
    let heavies := List.filter has_heavy pairs in
    mapM (mut_row heavy) heavies
  else
    let lights := List.filter is_not_None pairs in
    mapM (mut_row light) lights.

(** [100. - p.heavy['nt_identity']['v']] *)
Definition mutation (p : Pair num) : result num :=
  a ← opt_getitem miss (heavy p) "nt_identity";
  v ← getitem a "v";
  match v with
  | VNum x => sub100 x
  | _ => Raise TypeError
  end.

(** [min(l)]: the first item that no later item is less than; an empty
    list raises [ValueError]. *)
Definition py_min (l : list num) : result num :=
  match l with
  | [] => Raise ValueError
  | x :: rest => Ok (fold_left (λ cur item, if ltb item cur then item else cur) rest x)
  end.

(** [max(l)] *)
Definition py_max (l : list num) : result num :=
  match l with
  | [] => Raise ValueError
  | x :: rest => Ok (fold_left (λ cur item, if ltb cur item then item else cur) rest x)
  end.

(** [color_dict[l.heavies[0].subject]] *)
Definition lineage_color (l : Lineage num) : result string :=
  match heavies l with
  | [] => Raise IndexError
  | p :: _ => color_of (subject p)
  end.

(** The loop of [mutation_bubbleplot] that parses the mutation data,
    started with the lists collected so far. *)
Fixpoint bubble_loop (lineages : list (Lineage num)) (acc : BubbleData num)
  : result (BubbleData num) :=
  match lineages with
  | [] => Ok acc
  | l :: rest =>
      if (length (heavies l) =? 1)%nat then bubble_loop rest acc
      else
        ms ← mapM mutation (heavies l);
        x ← py_min ms;
        ms' ← mapM mutation (heavies l);
        y ← py_max ms';
        c ← lineage_color l;
        let a := (45 * Z.of_nat (length (heavies l)))%Z in
        bubble_loop rest
          (mkBubbleData (xs acc ++ [x]) (ys acc ++ [y]) (cs acc ++ [c]) (areas acc ++ [a]))
  end.

(** The data part of [mutation_bubbleplot(lineages)]: [xs], [ys], [cs]
    and [areas] as they stand when plotting begins. *)
Definition mutation_bubbleplot (lineages : list (Lineage num)) : result (BubbleData num) :=
  bubble_loop lineages (mkBubbleData [] [] [] []).
End Aggregation.

(** ** Notions used to state the properties of the aggregation *)

Section AggregationNotions.
Context {num : Type}.
Variable miss : missing_key.
Variable sub100 : num → result num.
Variable ltb : num → num → bool.

(** The value of [chain['var_muts_nt']['num']] for a chain record that has
    it: the chain is present, annotated with a dict under [var_muts_nt]
    that has the entry [num]. *)
Definition mut_field (o : option (Sequence num)) : option (value num) :=
  match o with
  | Some s =>
      match annotations s !! "var_muts_nt" with
      | Some (VDict d) => d !! "num"
      | _ => None
      end
  | None => None
  end.

(** The chain record is there and has no [var_muts_nt]/[num] entry. *)
Definition lacks_field (o : option (Sequence num)) : Prop :=
  ∃ s, o = Some s ∧ mut_field o = None.

Definition chain_attr (chain : string) : Pair num → option (Sequence num) :=
  if String.eqb chain "heavy" then heavy else light.

(** The pairs that reach the projection of the given chain. *)
Definition projected (chain : string) (just_pairs : bool) (pairs : list (Pair num))
  : list (Pair num) :=
  let pairs := if just_pairs then List.filter is_pair pairs else pairs in
  if String.eqb chain "heavy" then List.filter has_heavy pairs else pairs.

(** The row that the pair [p] contributes through the chain [chain_of]. *)
Definition row_of (chain_of : Pair num → option (Sequence num)) (p : Pair num)
    (row : MutRow num) : Prop :=
  ∃ m c, mut_field (chain_of p) = Some m
       ∧ color_dict !! subject p = Some c
       ∧ row = mkMutRow m (replace "donor_" "" (subject p)) c.

(** Field-wise concatenation of collected data *)
Definition bubble_app (a b : BubbleData num) : BubbleData num :=
  mkBubbleData (xs a ++ xs b) (ys a ++ ys b) (cs a ++ cs b) (areas a ++ areas b).

Definition bubble_nil : BubbleData num := mkBubbleData [] [] [] [].

(** What one lineage that is not skipped appends *)
Definition bubble_entry (l : Lineage num) : result (BubbleData num) :=
  ms ← mapM (mutation miss sub100) (heavies l);
  x ← py_min ltb ms;
  y ← py_max ltb ms;
  c ← lineage_color l;
  mret (mkBubbleData [x] [y] [c] [(45 * Z.of_nat (length (heavies l)))%Z]).

Definition min_step (cur item : num) : num := if ltb item cur then item else cur.

Definition max_step (cur item : num) : num := if ltb cur item then item else cur.

(** The lineages that the loop does not skip when it runs to the end, and
    the derived metric of a lineage's heavy pairs. *)
Definition plotted (ls : list (Lineage num)) : list (Lineage num) :=
  List.filter (λ l, (1 <? length (heavies l))%nat) ls.

Definition mutations_of (l : Lineage num) : result (list num) :=
  mapM (mutation miss sub100) (heavies l).

(** The percent identity of the heavy chain of [p] to its germline V
    gene: the number that the annotations of the heavy record hold under
    [nt_identity], [v]. *)
Definition nt_identity_v (p : Pair num) : option num :=
  match heavy p with
  | Some s =>
      match annotations s !! "nt_identity" with
      | Some (VDict d) =>
          match d !! "v" with
          | Some (VNum v) => Some v
          | _ => None
          end
      | _ => None
      end
  | None => None
  end.

(** [m] is 100 minus the percent identity of the heavy chain of [p]. *)
Definition divergence (p : Pair num) (m : num) : Prop :=
  ∃ v, nt_identity_v p = Some v ∧ sub100 v = Ok m.

(** [c] is the color of the donor of the first heavy pair of [l]. *)
Definition donor_color (l : Lineage num) (c : string) : Prop :=
  ∃ p rest, heavies l = p :: rest ∧ color_dict !! subject p = Some c.

Definition is_least (x : num) (ms : list num) : Prop :=
  In x ms ∧ ∀ m, In m ms → ltb m x = false.

Definition is_greatest (y : num) (ms : list num) : Prop :=
  In y ms ∧ ∀ m, In m ms → ltb y m = false.

(** The subject is one of the four donors. *)
Definition known_donor (p : Pair num) : bool :=
  existsb (String.eqb (subject p)) donors.

(** The pairs handed to the projection: all of them, or the true pairs. *)
Definition given (just_pairs : bool) (pairs : list (Pair num)) : list (Pair num) :=
  if just_pairs then List.filter is_pair pairs else pairs.

(** A marker area of the bubble plot: 45 for each of at least two pairs. *)
Definition bubble_area (a : Z) : Prop := ∃ n : nat, (2 ≤ n)%nat ∧ a = (45 * Z.of_nat n)%Z.
End AggregationNotions.

End Zika.

(** * The ab[x] tutorial notebook *)

Module Tutorial.

Section Truncation.
Context {num : Type}.
Variable miss : missing_key.

(** The condition of the comprehension that builds [pct64_seqs]:
    [all(['PCT64' in s.id, s['chain'] == 'heavy'])].  Both items of the
    list are evaluated before [all] is called. *)
Definition is_pct64_heavy (s : Sequence num) : result bool :=
  let in_id := contains "PCT64" (id s) in
  c ← seq_getitem miss s "chain";
  mret (in_id && eq_str c "heavy").

(** [pct64_seqs = [s for s in annotated_seqs if ...]].  The comprehension
    copies references: [annotated_seqs] holds the objects, and the new list
    is the list of the positions, counted from [i], of the selected ones. *)
Fixpoint select_from (i : nat) (seqs : list (Sequence num)) : result (list nat) :=
  match seqs with
  | [] => Ok []
  | s :: rest =>
      b ← is_pct64_heavy s;
      ks ← select_from (S i) rest;
      mret (if b : bool then i :: ks else ks)
  end.

Definition pct64_seqs (annotated_seqs : list (Sequence num)) : result (list nat) :=
  select_from 0 annotated_seqs.

(** The body of the loop, on the object [s]:
    [s.id = s.id.split('_')[0]] and then [s['seq_id'] = s.id]. *)
Definition truncate (s : Sequence num) : Sequence num :=
  let s1 := set_id s (split_head "_" (id s)) in
  seq_setitem s1 "seq_id" (VStr (id s1)).

(** [for s in pct64_seqs: ...], run on the store of objects *)
Definition truncate_loop (store : list (Sequence num)) (selected : list nat)
  : list (Sequence num) :=
  fold_left (λ st i, alter truncate i st) selected store.

(** The two cells together: the objects of [annotated_seqs] afterwards. *)
Definition truncate_names (annotated_seqs : list (Sequence num))
  : result (list (Sequence num)) :=
  selected ← pct64_seqs annotated_seqs;
  mret (truncate_loop annotated_seqs selected).
End Truncation.

(** ** Notions used to state the frame of the truncation *)

Section TruncationNotions.
Context {num : Type}.

(** What the loop body leaves alone: the sequence and every annotation
    but [seq_id]. *)
Definition same_data (s s' : Sequence num) : Prop :=
  sequence s' = sequence s
  ∧ ∀ key, key ≠ "seq_id" → annotations s' !! key = annotations s !! key.

(** [s'] is [s] with its identifier cut at the first underscore and
    mirrored in the [seq_id] annotation. *)
Definition normalized (s s' : Sequence num) : Prop :=
  id s' = split_head "_" (id s)
  ∧ annotations s' !! "seq_id" = Some (VStr (id s'))
  ∧ same_data s s'.
End TruncationNotions.

End Tutorial.

(** * The grouping components of the library

    The notebooks call [assign_pairs], [group_lineages] and [cluster] and
    read [Pair.is_pair] and [ClusterSet.largest_cluster]; their code is in
    the [abutils] library, not in this repository.  The three modules below
    model them from the specification of the components (sections 3 and 4
    of the specification). *)

Module PairAssigner.

(** Modelled from the spec: the chain designation of a SequenceRecord,
    [heavy | light | unknown] (section 3). *)
Inductive chain : Set :=
| Heavy
| Light
| Unknown.

Section Pairs.
Context {num : Type}.

(** Modelled from the spec: the chain designation of a record, read from
    its [chain] annotation as the tutorial does ([s['chain'] == 'heavy']);
    anything that is not [heavy] or [light] is unrecognized. *)
Definition chain_of (s : Sequence num) : chain :=
  match annotations s !! "chain" with
  | Some (VStr c) =>
      if String.eqb c "heavy" then Heavy
      else if String.eqb c "light" then Light
      else Unknown
  | _ => Unknown
  end.

Definition is_heavy (s : Sequence num) : bool :=
  match chain_of s with
  | Heavy => true
  | _ => false
  end.

Definition is_light (s : Sequence num) : bool :=
  match chain_of s with
  | Light => true
  | _ => false
  end.

(** Modelled from the spec: a Pair is the group of records that share a
    grouping key; its records of unrecognized chain are kept in the group
    (sections 3 and 4.1). *)
Record Pair : Type := mkPair {
  name : string;
  members : list (Sequence num)
}.

(** Modelled from the spec: the heavy and light sub-lists of a Pair
    (section 4.1). *)
Definition heavies (p : Pair) : list (Sequence num) := List.filter is_heavy (members p).
Definition lights (p : Pair) : list (Sequence num) := List.filter is_light (members p).

(** Modelled from the spec: [Pair.is_pair], true for exactly one heavy and
    one light record (section 3). *)
Definition is_pair (p : Pair) : bool :=
  (length (heavies p) =? 1)%nat && (length (lights p) =? 1)%nat.

(** Modelled from the spec: the record [s] with grouping key [key] joins
    the Pair of that key or, when there is none yet, opens one behind the
    others, so that Pairs stand in the order in which their keys first
    appear (section 4.1). *)
Fixpoint add_record (key : string) (s : Sequence num) (pairs : list Pair) : list Pair :=
  match pairs with
  | [] => [mkPair key [s]]
  | p :: rest =>
      if String.eqb (name p) key then mkPair (name p) (members p ++ [s]) :: rest
      else p :: add_record key s rest
  end.

(** Modelled from the spec: [assign_pairs(seqs, delim)], which groups the
    records by the text of their identifier before the first occurrence of
    the delimiter (section 4.1).  An identifier without the delimiter is
    its own key (section 7, a). *)
Definition assign_pairs (seqs : list (Sequence num)) (delim : string) : list Pair :=
  fold_left (λ pairs s, add_record (split_head delim (id s)) s pairs) seqs [].

(** [real_pairs = [p for p in pairs if p.is_pair]] (the tutorial) *)
Definition real_pairs (pairs : list Pair) : list Pair := List.filter is_pair pairs.
End Pairs.

Arguments Pair num : clear implicits.
Arguments mkPair {num} _ _.

(** ** Notions used to state the properties of the assignment *)

Section PairsNotions.
Context {num : Type}.

(** The records of all the pairs, pair after pair *)
Definition all_members (pairs : list (Pair num)) : list (Sequence num) :=
  concat (List.map members pairs).

(** The grouping key of the record [s] is [key]. *)
Definition has_key (delim key : string) (s : Sequence num) : bool :=
  String.eqb (split_head delim (id s)) key.

(** The members of the pairs are the records seen of their keys, in the
    order in which they were given, and every record seen has its pair. *)
Definition membered (delim : string) (seen : list (Sequence num)) (pairs : list (Pair num))
  : Prop :=
  (∀ p, p ∈ pairs → members p = List.filter (has_key delim (name p)) seen)
  ∧ (∀ s, s ∈ seen → split_head delim (id s) ∈ List.map name pairs).

(** Every member of every pair has the pair's name as its key. *)
Definition keyed (delim : string) (pairs : list (Pair num)) : Prop :=
  ∀ p s, p ∈ pairs → s ∈ members p → split_head delim (id s) = name p.

(** A record with the given identifier and chain annotation *)
Definition labelled (ident chain : string) : Sequence num :=
  mkSequence ident "" (<["chain" := VStr chain]> ∅).
End PairsNotions.

End PairAssigner.

Module ClusterEngine.

(** [a < b] on identities *)
Definition Qlt_bool (a b : Q) : bool := negb (Qle_bool b a).

Section Clustering.
Context {num : Type}.
(** The injected similarity capability (section 9 of the specification) *)
Variable similarity : Sequence num → Sequence num → Q.

(** Modelled from the spec: a Cluster has a centroid and the records
    assigned to it; its members are all of them (section 3). *)
Record Cluster : Type := mkCluster {
  centroid : Sequence num;
  others : list (Sequence num)
}.

Definition seqs (c : Cluster) : list (Sequence num) := centroid c :: others c.
Definition size (c : Cluster) : nat := length (seqs c).
Definition ids (c : Cluster) : list string := List.map id (seqs c).

(** Modelled from the spec: the sort key of the records, descending
    sequence length and then identifier (section 4.3). *)
Definition sorts_before (a b : Sequence num) : Prop :=
  (String.length (sequence b) < String.length (sequence a))%nat
  ∨ (String.length (sequence a) = String.length (sequence b) ∧ String.le (id a) (id b)).

#[global] Instance sorts_before_dec : RelDecision sorts_before.
Proof. intros a b. unfold sorts_before. apply _. Defined.

Definition sort_records (records : list (Sequence num)) : list (Sequence num) :=
  merge_sort sorts_before records.

(** Modelled from the spec: a record joins the cluster of a centroid when
    its identity to the centroid exceeds the threshold (section 4.3). *)
Definition joins (threshold : Q) (c r : Sequence num) : bool :=
  Qlt_bool threshold (similarity c r).

(** Modelled from the spec: the greedy pass.  The first record that is not
    clustered yet opens a cluster as its centroid and takes every later
    record, not clustered yet, that joins it (section 4.3). *)
Equations? greedy (threshold : Q) (records : list (Sequence num)) : list Cluster
  by wf (length records) lt :=
greedy threshold [] := [];
greedy threshold (c :: rest) :=
  mkCluster c (List.filter (joins threshold c) rest)
  :: greedy threshold (List.filter (λ r, negb (joins threshold c r)) rest).
Proof.
  simpl. pose proof (List.filter_length_le (λ r, negb (joins threshold c r)) rest). lia.
Qed.

(** Modelled from the spec: [cluster(seqs, threshold)], the ClusterSet of
    one clustering run (section 4.3). *)
Definition cluster (records : list (Sequence num)) (threshold : Q) : list Cluster :=
  greedy threshold (sort_records records).

(** Modelled from the spec: [ClusterSet.largest_cluster], the cluster of
    maximum size, the first one met among those of that size
    (section 3). *)
Definition largest_cluster (clusters : list Cluster) : option Cluster :=
  match clusters with
  | [] => None
  | c :: rest =>
      Some (fold_left (λ best x, if (size best <? size x)%nat then x else best) rest c)
  end.
End Clustering.

Arguments Cluster num : clear implicits.
Arguments mkCluster {num} _ _.

(** ** Notions used to state the properties of the clustering *)

Section ClusteringNotions.
Context {num : Type}.

(** The records of all the clusters, cluster after cluster *)
Definition all_records (clusters : list (Cluster num)) : list (Sequence num) :=
  concat (List.map seqs clusters).

Definition larger (best x : Cluster num) : Cluster num :=
  if (size best <? size x)%nat then x else best.

(** [best] is the first cluster of maximum size in [clusters]. *)
Definition first_largest (clusters : list (Cluster num)) (best : Cluster num) : Prop :=
  ∃ i, clusters !! i = Some best
       ∧ (∀ c, c ∈ clusters → (size c ≤ size best)%nat)
       ∧ (∀ j c, (j < i)%nat → clusters !! j = Some c → (size c < size best)%nat).
End ClusteringNotions.

End ClusterEngine.

Module LineageGrouper.

Section Grouping.
Context {num : Type}.
(** The chain to key on, [heavy] by default *)
Variable designated : Zika.Pair num → option (Sequence num).
(** The germline V and J gene calls of a record *)
Variable v_call j_call : Sequence num → string.
(** The injected similarity capability and its threshold *)
Variable identity : Sequence num → Sequence num → Q.
Variable threshold : Q.

Definition has_chain (p : Zika.Pair num) : bool :=
  match designated p with
  | Some _ => true
  | None => false
  end.

(** Modelled from the spec: the pairwise criterion of the Lineage Grouper.
    The gene calls of the designated chains match exactly and the identity
    of the two sequences exceeds the threshold (section 4.2). *)
Definition similar (p q : Zika.Pair num) : bool :=
  match designated p, designated q with
  | Some a, Some b =>
      String.eqb (v_call a) (v_call b) && String.eqb (j_call a) (j_call b)
      && ClusterEngine.Qlt_bool threshold (identity a b)
  | _, _ => false
  end.

(** [p] is similar to a member of the group, one way or the other. *)
Definition linked (p : Zika.Pair num) (group : list (Zika.Pair num)) : bool :=
  existsb (λ q, similar p q || similar q p) group.

(** Modelled from the spec: single-linkage clustering, one pair at a
    time.  The groups that [p] is linked to are merged into one, which [p]
    joins; the others stay (section 4.2). *)
Definition add_pair (groups : list (list (Zika.Pair num))) (p : Zika.Pair num)
  : list (list (Zika.Pair num)) :=
  let (hit, rest) := List.partition (linked p) groups in
  rest ++ [concat hit ++ [p]].

(** Modelled from the spec: the member lists of the Lineages of
    [group_lineages(pairs)].  Pairs without the designated chain are left
    out of every Lineage (section 4.2). *)
Definition group_lineages (pairs : list (Zika.Pair num)) : list (list (Zika.Pair num)) :=
  fold_left add_pair (List.filter has_chain pairs) [].

(** Modelled from the spec: the pairs reported as unassigned
    (section 4.2). *)
Definition unassigned (pairs : list (Zika.Pair num)) : list (Zika.Pair num) :=
  List.filter (λ p, negb (has_chain p)) pairs.

(** *** Notions used to state the properties of the grouping *)

(** The pairwise criterion holds of two pairs of the input. *)
Definition similar_in (input : list (Zika.Pair num)) (p q : Zika.Pair num) : Prop :=
  p ∈ input ∧ q ∈ input ∧ similar p q = true.

(** Single linkage: [p] and [q] are joined by a chain of pairs of the
    input, each similar to the next, one way or the other. *)
Definition chained (input : list (Zika.Pair num)) : relation (Zika.Pair num) := rtsc (similar_in input).

(** Two pairs share a lineage. *)
Definition share (groups : list (list (Zika.Pair num))) (p q : Zika.Pair num) : Prop :=
  ∃ g, g ∈ groups ∧ p ∈ g ∧ q ∈ g.

(** The invariant of the loop of [group_lineages]: the groups hold the
    pairs seen so far, the members of a group are chained, and similar
    pairs share a group. *)
Definition grouped (seen : list (Zika.Pair num)) (groups : list (list (Zika.Pair num))) : Prop :=
  concat groups ≡ₚ seen
  ∧ (∀ g x y, g ∈ groups → x ∈ g → y ∈ g → chained seen x y)
  ∧ (∀ x y, x ∈ seen → y ∈ seen → similar x y = true → share groups x y).
End Grouping.

End LineageGrouper.

(** * Sample data *)

Module Samples.

Section ZikaSamples.
Import Zika.

(** Records annotated as in the JSON output of abstar, with integer
    numbers: [muts] nucleotide mutations, [ident] percent identity. *)
Definition annotated (name chain : string) (nmuts ident : Z) : Sequence Z :=
  mkSequence name "CAGGTGCAGCTG"
    (<["chain" := VStr chain]>
       (<["var_muts_nt" := VDict (<["num" := VNum nmuts]> ∅)]>
          (<["nt_identity" := VDict (<["v" := VNum ident]> ∅)]> ∅))).

(** A record without the mutation and identity annotations *)
Definition unannotated (name chain : string) : Sequence Z :=
  mkSequence name "CAGGTGCAGCTG" (<["chain" := VStr chain]> ∅).

Definition paired_a : Pair Z :=
  mkPair true (Some (annotated "a_heavy" "heavy" 12 95)) (Some (annotated "a_light" "light" 4 98)) "donor_1".

Definition paired_b : Pair Z :=
  mkPair true (Some (annotated "b_heavy" "heavy" 30 88)) (Some (annotated "b_light" "light" 9 97)) "donor_1".

Definition heavy_only : Pair Z :=
  mkPair false (Some (annotated "c_heavy" "heavy" 7 97)) None "donor_2".

Definition light_only : Pair Z :=
  mkPair false None (Some (annotated "d_light" "light" 2 99)) "donor_2".

Definition paired_bare : Pair Z :=
  mkPair true (Some (unannotated "e_heavy" "heavy")) (Some (unannotated "e_light" "light")) "donor_3".

Definition lineage_ab : Lineage Z := mkLineage "lineage_ab" [paired_a; paired_b].

Definition lineage_c : Lineage Z := mkLineage "lineage_c" [heavy_only].

Definition lineage_none : Lineage Z := mkLineage "lineage_none" [].

(** A lineage of one pair, which has no annotation *)
Definition lineage_bare : Lineage Z := mkLineage "lineage_bare" [paired_bare].

(** A lineage with a pair whose identity is an [int] beyond the range of
    floats *)
Definition paired_huge : Pair Z :=
  mkPair true (Some (annotated "h_heavy" "heavy" 3 (2 ^ 1024))) (Some (annotated "h_light" "light" 1 99))
    "donor_4".

Definition lineage_huge : Lineage Z := mkLineage "lineage_huge" [paired_a; paired_huge].

(** Python's float arithmetic on the integers.  A float that is an integer
    is written as this integer; [round53] rounds to the nearest integer of
    53 significant bits, ties to the even one, as the conversion of an
    [int] and every float operation do. *)
Definition round53 (z : Z) : Z :=
  let a := Z.abs z in
  let s := (Z.log2 a - 52)%Z in
  if (s <=? 0)%Z then z
  else
    let q := Z.shiftr a s in
    let r := Z.land a (Z.ones s) in
    let half := Z.shiftl 1 (s - 1) in
    let q' := if (half <? r)%Z || ((r =? half)%Z && Z.odd q) then (q + 1)%Z else q in
    (Z.sgn z * Z.shiftl q' s)%Z.

(** [float(v)] for an [int]: [OverflowError] when the rounded value is
    beyond the largest float. *)
Definition float_of_int (v : Z) : result Z :=
  let r := round53 v in
  if (2 ^ 1024 <=? Z.abs r)%Z then Raise OverflowError else Ok r.

(** [100. - v] for an [int] [v] *)
Definition minus100 (v : Z) : result Z :=
  f ← float_of_int v;
  mret (round53 (100 - f)).
End ZikaSamples.

Section TutorialSamples.

Definition pct64_heavy : Sequence Z :=
  mkSequence "PCT64-18B_heavy_IGHV3-15" "GAGGTGCAGCTGGTG"
    (<["chain" := VStr "heavy"]> (<["seq_id" := VStr "PCT64-18B_heavy_IGHV3-15"]> ∅)).

Definition pct64_light : Sequence Z :=
  mkSequence "PCT64-18B_light" "CAGTCTGCCCTG"
    (<["chain" := VStr "lambda"]> (<["seq_id" := VStr "PCT64-18B_light"]> ∅)).

Definition pgt121_heavy : Sequence Z :=
  mkSequence "PGT121_heavy" "CAGATGCAGTTA"
    (<["chain" := VStr "heavy"]> (<["seq_id" := VStr "PGT121_heavy"]> ∅)).

Definition loaded_sample : list (Sequence Z) := [pct64_heavy; pct64_light; pgt121_heavy].

Definition truncated_sample : list (Sequence Z) :=
  [mkSequence "PCT64-18B" "GAGGTGCAGCTGGTG"
     (<["chain" := VStr "heavy"]> (<["seq_id" := VStr "PCT64-18B"]> ∅));
   pct64_light; pgt121_heavy].
End TutorialSamples.

Section ModelSamples.
Import ClusterEngine LineageGrouper.

(** Position-wise identity of two sequences: the share of the positions of
    the longer one at which both have the same letter. *)
Fixpoint matches (s t : string) : nat :=
  match s, t with
  | String a s', String b t' => (if Ascii.eqb a b then 1 else 0) + matches s' t'
  | _, _ => 0
  end.

Definition hamming_identity (a b : Sequence Z) : Q :=
  Z.of_nat (matches (sequence a) (sequence b))
  # Pos.of_nat (String.length (sequence a) `max` String.length (sequence b)).

Definition gene_call (field : string) (s : Sequence Z) : string :=
  match annotations s !! field with
  | Some (VStr g) => g
  | _ => ""
  end.

Definition heavy_record (name v_gene seq : string) : Sequence Z :=
  mkSequence name seq
    (<["chain" := VStr "heavy"]> (<["v_gene" := VStr v_gene]> (<["j_gene" := VStr "IGHJ4"]> ∅))).

Definition pair_of (name v_gene seq : string) : Zika.Pair Z :=
  Zika.mkPair false (Some (heavy_record name v_gene seq)) None "donor_3".

(** A is similar to B and B to C, at 8 of 10 positions; A and C agree at
    6 only.  D is of another V gene, E has no heavy chain. *)
Definition pair_A : Zika.Pair Z := pair_of "A" "IGHV1-2" "GGGGGGGGGG".

Definition pair_B : Zika.Pair Z := pair_of "B" "IGHV1-2" "GGGGGGGGTT".

Definition pair_C : Zika.Pair Z := pair_of "C" "IGHV1-2" "GGGGGGTTTT".

Definition pair_D : Zika.Pair Z := pair_of "D" "IGHV3-1" "GGGGGGGGGG".

Definition pair_E : Zika.Pair Z := Zika.mkPair false None None "donor_3".

Definition sample_pairs : list (Zika.Pair Z) := [pair_A; pair_D; pair_C; pair_E; pair_B].

Definition sample_lineages : list (list (Zika.Pair Z)) :=
  group_lineages Zika.heavy (gene_call "v_gene") (gene_call "j_gene")
    hamming_identity (7 # 10) sample_pairs.

(** The clusters of six records at threshold 0.75 *)
Definition sample_records : list (Sequence Z) :=
  [heavy_record "r1" "IGHV1-2" "GGGGGGGG";
   heavy_record "r2" "IGHV1-2" "GGGGGGGGTT";
   heavy_record "r3" "IGHV1-2" "CCCCCCCCCC";
   heavy_record "r4" "IGHV1-2" "GGGGGGGGGG";
   heavy_record "r5" "IGHV1-2" "CCCCCCCCC";
   heavy_record "r6" "IGHV1-2" "ACACACAC"].
End ModelSamples.

End Samples.

(** * Properties *)

(** ** Results and [mapM] *)

Lemma mapM_result_nil {A B} (f : A → result B) : mapM f [] = Ok [].
Proof. reflexivity. Qed.

Lemma mapM_result_cons {A B} (f : A → result B) (x : A) (l : list A) :
  mapM f (x :: l) =
  match f x with
  | Ok y =>
      match mapM f l with
      | Ok ys => Ok (y :: ys)
      | Raise e => Raise e
      end
  | Raise e => Raise e
  end.
Proof. reflexivity. Qed.

Lemma mapM_result_Ok {A B} (f : A → result B) (l : list A) (ys : list B) :
  mapM f l = Ok ys ↔ Forall2 (λ x y, f x = Ok y) l ys.
Proof.
  revert ys. induction l as [|x l IH]; intros ys.
  - rewrite mapM_result_nil. split.
    + intros [= <-]. constructor.
    + intros H. inversion H. reflexivity.
  - rewrite mapM_result_cons. split.
    + destruct (f x) as [y|e] eqn:Hx; [|discriminate].
      destruct (mapM f l) as [zs|e] eqn:Hl; [|discriminate].
      intros [= <-]. constructor; [assumption|]. apply IH. reflexivity.
    + intros H. inversion H as [|? y ? zs Hx Hl]; subst.
      rewrite Hx. apply IH in Hl. rewrite Hl. reflexivity.
Qed.

Lemma mapM_result_raises {A B} (f : A → result B) (l : list A) :
  raises (mapM f l) = true ↔ Exists (λ x, raises (f x) = true) l.
Proof.
  induction l as [|x l IH].
  - rewrite mapM_result_nil. simpl. split; [discriminate|].
    intros H. inversion H.
  - rewrite mapM_result_cons, Exists_cons, <- IH.
    destruct (f x) as [y|e]; simpl.
    + destruct (mapM f l); simpl; split; auto.
      intros [H|H]; [discriminate|assumption].
    + split; auto.
Qed.

Lemma mapM_result_total {A B} (f : A → result B) (l : list A) :
  Forall (λ x, raises (f x) = false) l → ∃ ys, mapM f l = Ok ys.
Proof.
  intros Hall. destruct (mapM f l) as [ys|e] eqn:E; [eauto|].
  assert (Hr : raises (mapM f l) = true) by (rewrite E; reflexivity).
  apply mapM_result_raises in Hr. apply Exists_exists in Hr as (x & Hx & Hfx).
  rewrite Forall_forall in Hall. rewrite (Hall x Hx) in Hfx. discriminate.
Qed.

Lemma raises_false_Ok {A} (r : result A) : raises r = false ↔ ∃ a, r = Ok a.
Proof.
  destruct r as [a|e]; simpl; split; eauto.
  - discriminate.
  - intros [a [=]].
Qed.

Lemma mapM_result_length {A B} (f : A → result B) (l : list A) (ys : list B) :
  mapM f l = Ok ys → length ys = length l.
Proof.
  intros H. apply mapM_result_Ok in H.
  symmetry. eapply Forall2_length. exact H.
Qed.

Lemma filter_app_drop {A} (f : A → bool) (l1 l2 : list A) (x : A) :
  f x = false → List.filter f (l1 ++ x :: l2) = List.filter f (l1 ++ l2).
Proof.
  intros Hx. rewrite !List.filter_app. simpl. rewrite Hx. reflexivity.
Qed.

Lemma mapM_result_app {A B} (f : A → result B) (l1 l2 : list A) :
  mapM f (l1 ++ l2) =
  match mapM f l1 with
  | Ok ys1 =>
      match mapM f l2 with
      | Ok ys2 => Ok (ys1 ++ ys2)
      | Raise e => Raise e
      end
  | Raise e => Raise e
  end.
Proof.
  induction l1 as [|x l1 IH].
  - simpl app. rewrite mapM_result_nil. destruct (mapM f l2); reflexivity.
  - simpl app. rewrite !mapM_result_cons, IH.
    destruct (f x); [|reflexivity].
    destruct (mapM f l1); [|reflexivity].
    destruct (mapM f l2); reflexivity.
Qed.

(** The exception of a failed [mapM] is the exception of an element. *)
Lemma mapM_result_Raise {A B} (f : A → result B) (l : list A) (e : exn) :
  mapM f l = Raise e → ∃ x, In x l ∧ f x = Raise e.
Proof.
  induction l as [|x l IH].
  - rewrite mapM_result_nil. discriminate.
  - rewrite mapM_result_cons. destruct (f x) as [y|e'] eqn:Hx.
    + destruct (mapM f l) as [ys|e'']; [discriminate|].
      intros [= ->]. destruct (IH eq_refl) as (x' & Hin & Hx').
      exists x'. split; [right; exact Hin|exact Hx'].
    + intros [= ->]. exists x. split; [left; reflexivity|exact Hx].
Qed.

(** What succeeds on a list succeeds on its sublists, with a sublist of
    the results. *)
Lemma mapM_result_sublist {A B} (f : A → result B) (l1 l2 : list A) (ys2 : list B) :
  sublist l1 l2 → mapM f l2 = Ok ys2 →
  ∃ ys1, mapM f l1 = Ok ys1 ∧ sublist ys1 ys2.
Proof.
  intros Hsub. revert ys2. induction Hsub as [|x l1 l2 Hsub IH|x l1 l2 Hsub IH]; intros ys2.
  - intros _. exists []. split; [reflexivity|apply sublist_nil_l].
  - rewrite !mapM_result_cons. destruct (f x) as [y|e]; [|discriminate].
    destruct (mapM f l2) as [zs|e]; [|discriminate].
    intros [= <-]. destruct (IH zs eq_refl) as (ys1 & -> & Hys).
    exists (y :: ys1). split; [reflexivity|]. constructor. exact Hys.
  - rewrite mapM_result_cons. destruct (f x) as [y|e]; [|discriminate].
    destruct (mapM f l2) as [zs|e]; [|discriminate].
    intros [= <-]. destruct (IH zs eq_refl) as (ys1 & -> & Hys).
    exists ys1. split; [reflexivity|]. constructor. exact Hys.
Qed.

Lemma filter_sublist {A} (f : A → bool) (l : list A) : sublist (List.filter f l) l.
Proof.
  induction l as [|x l IH]; simpl; [constructor|].
  destruct (f x); constructor; exact IH.
Qed.

Lemma sublist_filter {A} (f : A → bool) (l1 l2 : list A) :
  sublist l1 l2 → sublist (List.filter f l1) (List.filter f l2).
Proof.
  induction 1 as [|x l1 l2 Hsub IH|x l1 l2 Hsub IH]; simpl.
  - constructor.
  - destruct (f x); [constructor|]; exact IH.
  - destruct (f x); [constructor|]; exact IH.
Qed.

(** ** Strings *)

Lemma append_empty_r (s : string) : s +:+ "" = s.
Proof.
  induction s as [|c s IH]; [reflexivity|].
  change (String c (s +:+ "") = String c s). f_equal. exact IH.
Qed.

Lemma strip_prefix_app (d t u r : string) :
  strip_prefix d t = Some r → strip_prefix d (t +:+ u) = Some (r +:+ u).
Proof.
  revert t. induction d as [|a d IH]; intros t; simpl.
  - intros [= <-]. destruct (t +:+ u); reflexivity.
  - destruct t as [|b t]; [discriminate|]. simpl.
    destruct (Ascii.eqb a b); [apply IH|discriminate].
Qed.

Lemma strip_prefix_sound (d s r : string) :
  strip_prefix d s = Some r → s = d +:+ r.
Proof.
  revert s. induction d as [|a d IH]; intros s; simpl.
  - destruct s; intros [= <-]; reflexivity.
  - destruct s as [|b s]; [discriminate|].
    destruct (Ascii.eqb a b) eqn:E; [|discriminate].
    apply Ascii.eqb_eq in E as ->. intros H. rewrite (IH _ H). reflexivity.
Qed.

(** [split_head delim s] is the part of [s] in front of an occurrence of
    [delim], or all of [s]. *)
Lemma split_head_cut (d s : string) :
  s = split_head d s ∨ ∃ rest, s = split_head d s +:+ d +:+ rest.
Proof.
  induction s as [|c s IH].
  - simpl. destruct (strip_prefix d ""); auto.
  - cbn [split_head]. destruct (strip_prefix d (String c s)) as [r|] eqn:E.
    + right. exists r. apply strip_prefix_sound in E. exact E.
    + destruct IH as [IH|[rest IH]].
      * left. f_equal. exact IH.
      * right. exists rest. rewrite IH at 1. reflexivity.
Qed.

Lemma split_head_prefix (d s : string) : ∃ u, s = split_head d s +:+ u.
Proof.
  destruct (split_head_cut d s) as [H|[rest H]].
  - exists "". rewrite append_empty_r. exact H.
  - eauto.
Qed.

Lemma strip_prefix_split_head (d s : string) (c : Ascii.ascii) :
  strip_prefix d (String c s) = None →
  strip_prefix d (String c (split_head d s)) = None.
Proof.
  intros Hs. destruct (strip_prefix d (String c (split_head d s))) as [r|] eqn:E;
    [|reflexivity].
  destruct (split_head_prefix d s) as [u Hu].
  apply (strip_prefix_app _ _ u) in E.
  change (String c (split_head d s) +:+ u) with (String c (split_head d s +:+ u)) in E.
  rewrite <- Hu in E. congruence.
Qed.

(** The head holds no occurrence of the delimiter. *)
Lemma contains_split_head (d s : string) :
  d ≠ "" → contains d (split_head d s) = false.
Proof.
  intros Hd. induction s as [|c s IH].
  - simpl. destruct d; [congruence|]. reflexivity.
  - cbn [split_head]. destruct (strip_prefix d (String c s)) eqn:E.
    + destruct d; [congruence|]. reflexivity.
    + cbn [contains]. rewrite (strip_prefix_split_head d s c E). exact IH.
Qed.

Lemma split_head_empty (d : string) : split_head d "" = "".
Proof. simpl. destruct (strip_prefix d ""); reflexivity. Qed.

(** Cutting twice is cutting once. *)
Lemma split_head_idemp (d s : string) :
  split_head d (split_head d s) = split_head d s.
Proof.
  induction s as [|c s IH].
  - rewrite !split_head_empty. reflexivity.
  - cbn [split_head]. destruct (strip_prefix d (String c s)) eqn:E.
    + apply split_head_empty.
    + cbn [split_head]. rewrite (strip_prefix_split_head d s c E). f_equal. exact IH.
Qed.

(** ** The mutation data frame: [get_nt_mutations] *)

Section GetNtMutations.
Import Zika.
Context {num : Type}.
Variable miss : missing_key.

Lemma mut_row_Ok chain_of (p : Pair num) (row : MutRow num) :
  mut_row miss chain_of p = Ok row ↔ row_of chain_of p row.
Proof.
  unfold mut_row, row_of, color_of, mut_field, opt_getitem, seq_getitem, getitem.
  unfold mbind, mret, result_bind, result_ret.
  destruct (chain_of p) as [s|]; simpl.
  2: { split; [discriminate|]. intros (m & c & [=] & _). }
  destruct (annotations s !! "var_muts_nt") as [v|].
  - destruct v as [| | | |d];
      try (split; [discriminate|]; intros (m & c & [=] & _)).
    destruct (d !! "num") as [m|].
    + destruct (color_dict !! subject p) as [c|].
      * split.
        -- intros [= <-]. eauto.
        -- intros (m' & c' & [= <-] & [= <-] & ->). reflexivity.
      * split; [discriminate|]. intros (m' & c' & _ & [=] & _).
    + split; [discriminate|]. intros (m' & c' & [=] & _).
  - destruct miss; (split; [discriminate|]; intros (m & c & [=] & _)).
Qed.

Lemma mut_row_missing chain_of (p : Pair num) :
  mut_field (chain_of p) = None → raises (mut_row miss chain_of p) = true.
Proof.
  intros Hnone. destruct (mut_row miss chain_of p) as [row|e] eqn:E; [|reflexivity].
  apply mut_row_Ok in E as (m & c & Hm & _). congruence.
Qed.

Lemma get_nt_mutations_projected (pairs : list (Pair num)) chain just_pairs :
  get_nt_mutations miss pairs chain just_pairs =
  mapM (mut_row miss (chain_attr chain)) (projected chain just_pairs pairs).
Proof.
  unfold get_nt_mutations, projected, chain_attr.
  destruct (String.eqb chain "heavy"); [reflexivity|].
  f_equal. induction (if just_pairs then _ else _) as [|p l IH]; [reflexivity|].
  simpl. f_equal. exact IH.
Qed.

(** C1, as amended.  The heavy-chain aggregation leaves out every pair
    whose heavy chain is absent, without an error, and gives one row per
    pair that reaches the projection, in order.  The field is not checked
    for: for either chain, a pair that reaches the projection with the
    chain's record but without the field makes the whole aggregation raise,
    and the sequence is empty when no pair reaches the projection. *)
Theorem get_nt_mutations_missing (pairs : list (Pair num)) (just_pairs : bool) :
  (∀ l1 p l2, pairs = l1 ++ p :: l2 → heavy p = None →
     get_nt_mutations miss pairs "heavy" just_pairs =
     get_nt_mutations miss (l1 ++ l2) "heavy" just_pairs)
  ∧ (∀ rows, get_nt_mutations miss pairs "heavy" just_pairs = Ok rows ↔
       Forall2 (row_of heavy) (projected "heavy" just_pairs pairs) rows)
  ∧ (∀ chain, Exists (λ p, lacks_field (chain_attr chain p))
                (projected chain just_pairs pairs) →
       raises (get_nt_mutations miss pairs chain just_pairs) = true)
  ∧ (∀ chain, projected chain just_pairs pairs = [] →
       get_nt_mutations miss pairs chain just_pairs = Ok []).
Proof.
  repeat split.
  - intros l1 p l2 -> Hp. rewrite !get_nt_mutations_projected. f_equal.
    unfold projected. simpl.
    assert (Hh : has_heavy p = false) by (unfold has_heavy; rewrite Hp; reflexivity).
    destruct just_pairs.
    + rewrite (List.filter_app is_pair l1 l2), (List.filter_app is_pair l1 (p :: l2)).
      simpl. destruct (is_pair p); [|reflexivity].
      apply filter_app_drop. exact Hh.
    + apply filter_app_drop. exact Hh.
  - rewrite get_nt_mutations_projected, mapM_result_Ok. intros H.
    eapply Forall2_impl; [exact H|]. intros p row Hrow. apply mut_row_Ok in Hrow. exact Hrow.
  - rewrite get_nt_mutations_projected, mapM_result_Ok. intros H.
    eapply Forall2_impl; [exact H|]. intros p row Hrow. apply mut_row_Ok. exact Hrow.
  - intros chain Hex. rewrite get_nt_mutations_projected. apply mapM_result_raises.
    eapply Exists_impl; [exact Hex|]. intros p (s & _ & Hp). apply mut_row_missing. exact Hp.
  - intros chain Hnil. rewrite get_nt_mutations_projected, Hnil. reflexivity.
Qed.

(** C10.  With [just_pairs=True] the aggregation works on the true pairs
    only: for either chain the result is the one obtained from the list of
    true pairs, and an unpaired record, whatever it carries, changes
    nothing. *)
Theorem get_nt_mutations_just_pairs (pairs : list (Pair num)) (chain : string) :
  get_nt_mutations miss pairs chain true =
    get_nt_mutations miss (List.filter is_pair pairs) chain false
  ∧ (∀ rows, get_nt_mutations miss pairs chain true = Ok rows →
       (length rows ≤ length (List.filter is_pair pairs))%nat)
  ∧ (∀ l1 p l2, pairs = l1 ++ p :: l2 → is_pair p = false →
       get_nt_mutations miss pairs chain true =
       get_nt_mutations miss (l1 ++ l2) chain true).
Proof.
  split; [reflexivity|]. split.
  - intros rows Hrows. rewrite get_nt_mutations_projected in Hrows.
    apply mapM_result_length in Hrows. rewrite Hrows. unfold projected.
    destruct (String.eqb chain "heavy"); [|lia].
    apply List.filter_length_le.
  - intros l1 p l2 -> Hp. unfold get_nt_mutations.
    rewrite (filter_app_drop is_pair l1 l2 p Hp). reflexivity.
Qed.
End GetNtMutations.

(** ** More on [get_nt_mutations]: the light chain, unknown donors,
       concatenation and the default filter *)

Section GetNtMutationsMore.
Import Zika.
Context {num : Type}.
Variable miss : missing_key.

Lemma projected_light (pairs : list (Pair num)) (chain : string) (just_pairs : bool) :
  chain ≠ "heavy" →
  projected chain just_pairs pairs = given just_pairs pairs ∧ chain_attr chain = @light num.
Proof.
  intros Hc. apply String.eqb_neq in Hc. unfold projected, chain_attr, given.
  rewrite Hc. split; reflexivity.
Qed.

(** X1.  The light-chain branch, entered for every chain name other than
    [heavy], does not look at the light chain before it subscripts it: it
    succeeds exactly when every pair handed to it has a light record with
    the field and a donor of the palette, one row per pair, and a pair
    without a light chain makes it raise. *)
Theorem get_nt_mutations_light (pairs : list (Pair num)) (chain : string) (just_pairs : bool) :
  chain ≠ "heavy" →
  (∀ rows, get_nt_mutations miss pairs chain just_pairs = Ok rows ↔
     Forall2 (row_of light) (given just_pairs pairs) rows)
  ∧ (Exists (λ p, light p = None) (given just_pairs pairs) →
     raises (get_nt_mutations miss pairs chain just_pairs) = true)
  ∧ (∀ p rest, given just_pairs pairs = p :: rest → light p = None →
     get_nt_mutations miss pairs chain just_pairs = Raise TypeError).
Proof.
  intros Hc. destruct (projected_light pairs chain just_pairs Hc) as [Hproj Hattr].
  rewrite get_nt_mutations_projected, Hproj, Hattr. split; [|split].
  - intros rows. rewrite mapM_result_Ok. split; intros H.
    + eapply Forall2_impl; [exact H|]. intros p row Hrow.
      apply (mut_row_Ok miss light). exact Hrow.
    + eapply Forall2_impl; [exact H|]. intros p row Hrow.
      apply (mut_row_Ok miss light). exact Hrow.
  - intros Hex. apply mapM_result_raises. eapply Exists_impl; [exact Hex|].
    intros p Hp. apply mut_row_missing. rewrite Hp. reflexivity.
  - intros p rest -> Hp. rewrite mapM_result_cons. unfold mut_row. rewrite Hp. reflexivity.
Qed.

(** *** The palette *)

Lemma color_dict_lookup (s c : string) :
  color_dict !! s = Some c ↔ ∃ i, donors !! i = Some s ∧ colors !! i = Some c.
Proof.
  unfold color_dict. rewrite <- elem_of_list_to_map.
  - unfold donors, colors. simpl. rewrite !elem_of_cons, elem_of_nil. split.
    + intros [H|[H|[H|[H|[]]]]]; injection H as -> ->;
        [exists 0%nat|exists 1%nat|exists 2%nat|exists 3%nat]; split; reflexivity.
    + intros (i & Hs & Hc).
      do 4 (destruct i as [|i]; [injection Hs as <-; injection Hc as <-; tauto|]).
      discriminate.
  - unfold donors, colors. simpl. repeat constructor;
      rewrite ?elem_of_cons, elem_of_nil; intros H;
      repeat (destruct H as [H|H]; [discriminate|]); exact H.
Qed.

Lemma color_of_Ok (s c : string) :
  color_of s = Ok c ↔ ∃ i, donors !! i = Some s ∧ colors !! i = Some c.
Proof.
  rewrite <- color_dict_lookup. unfold color_of.
  destruct (color_dict !! s); split; congruence.
Qed.

Lemma known_donor_color (p : Pair num) :
  known_donor p = false ↔ color_of (subject p) = Raise KeyError.
Proof.
  unfold known_donor. split.
  - intros Hk. unfold color_of. destruct (color_dict !! subject p) as [c|] eqn:E; [|reflexivity].
    apply color_dict_lookup in E as (i & Hs & _).
    assert (Hex : existsb (String.eqb (subject p)) donors = true).
    { apply existsb_exists. exists (subject p). split; [|apply String.eqb_refl].
      apply list_elem_of_In, list_elem_of_lookup. eauto. }
    congruence.
  - intros Hc. destruct (existsb (String.eqb (subject p)) donors) eqn:E; [|reflexivity].
    apply existsb_exists in E as (d & Hd & Heq). apply String.eqb_eq in Heq. subst d.
    apply list_elem_of_In, list_elem_of_lookup in Hd as [i Hi].
    assert (Hlen : (i < length colors)%nat) by (apply lookup_lt_Some in Hi; exact Hi).
    apply lookup_lt_is_Some in Hlen as [c Hc'].
    assert (color_of (subject p) = Ok c) by (apply color_of_Ok; eauto). congruence.
Qed.

Lemma mut_row_unknown_donor chain_of (p : Pair num) :
  known_donor p = false →
  raises (mut_row miss chain_of p) = true
  ∧ (mut_field (chain_of p) ≠ None → mut_row miss chain_of p = Raise KeyError).
Proof.
  intros Hk. destruct (mut_row miss chain_of p) as [row|e] eqn:E.
  - apply mut_row_Ok in E as (m & c & _ & Hc & _).
    apply known_donor_color in Hk. unfold color_of in Hk. rewrite Hc in Hk. discriminate.
  - split; [reflexivity|]. intros Hm. revert E. apply known_donor_color in Hk.
    unfold mut_row, mut_field, opt_getitem, seq_getitem, getitem in *.
    unfold mbind, mret, result_bind, result_ret. rewrite Hk.
    destruct (chain_of p) as [s|]; [|congruence].
    destruct (annotations s !! "var_muts_nt") as [[| | | |d]|]; try congruence.
    destruct (d !! "num"); congruence.
Qed.

(** X2.  The colors are looked up by subject, and the palette knows the four
    donors only: a pair of any other subject that reaches the projection
    makes the aggregation raise, with [KeyError] when the pairs before it
    succeed and it has the field. *)
Theorem get_nt_mutations_unknown_donor (pairs : list (Pair num)) (chain : string)
    (just_pairs : bool) :
  (∀ (p : Pair num) c, color_of (subject p) = Ok c ↔
          ∃ i, donors !! i = Some (subject p) ∧ colors !! i = Some c)
  ∧ (Exists (λ p, known_donor p = false) (projected chain just_pairs pairs) →
     raises (get_nt_mutations miss pairs chain just_pairs) = true)
  ∧ (∀ before p after, projected chain just_pairs pairs = before ++ p :: after →
       known_donor p = false → mut_field (chain_attr chain p) ≠ None →
       Forall (λ q, raises (mut_row miss (chain_attr chain) q) = false) before →
       get_nt_mutations miss pairs chain just_pairs = Raise KeyError).
Proof.
  split; [intros p c; apply color_of_Ok|]. split.
  - intros Hex. rewrite get_nt_mutations_projected. apply mapM_result_raises.
    eapply Exists_impl; [exact Hex|]. intros p Hp. apply mut_row_unknown_donor, Hp.
  - intros before p after Hproj Hk Hm Hbefore.
    rewrite get_nt_mutations_projected, Hproj, mapM_result_app, mapM_result_cons.
    destruct (mapM_result_total _ _ Hbefore) as [rows ->].
    rewrite (proj2 (mut_row_unknown_donor _ p Hk) Hm). reflexivity.
Qed.

(** X3.  The aggregation of a concatenation is the concatenation of the
    aggregations; when one of them raises, the first exception is the
    outcome. *)
Theorem get_nt_mutations_app (pairs1 pairs2 : list (Pair num)) (chain : string)
    (just_pairs : bool) :
  get_nt_mutations miss (pairs1 ++ pairs2) chain just_pairs =
  match get_nt_mutations miss pairs1 chain just_pairs with
  | Ok rows1 =>
      match get_nt_mutations miss pairs2 chain just_pairs with
      | Ok rows2 => Ok (rows1 ++ rows2)
      | Raise e => Raise e
      end
  | Raise e => Raise e
  end.
Proof.
  rewrite !get_nt_mutations_projected.
  assert (Happ : projected chain just_pairs (pairs1 ++ pairs2) =
                 projected chain just_pairs pairs1 ++ projected chain just_pairs pairs2).
  { unfold projected. destruct just_pairs, (String.eqb chain "heavy");
      rewrite ?List.filter_app; reflexivity. }
  rewrite Happ. apply mapM_result_app.
Qed.

(** X4.  When the aggregation of all the pairs ([just_pairs=False]) succeeds,
    so does the default one, and its rows are rows of the former, in the
    same order. *)
Theorem get_nt_mutations_default_sublist (pairs : list (Pair num)) (chain : string)
    (rows_all : list (MutRow num)) :
  get_nt_mutations miss pairs chain false = Ok rows_all →
  ∃ rows, get_nt_mutations miss pairs chain true = Ok rows ∧ sublist rows rows_all.
Proof.
  rewrite !get_nt_mutations_projected. apply mapM_result_sublist.
  unfold projected. destruct (String.eqb chain "heavy").
  - apply sublist_filter, filter_sublist.
  - apply filter_sublist.
Qed.
End GetNtMutationsMore.

(** ** The pairs of each donor *)

Section DonorPairs.
Import Zika.
Context {num : Type}.

Lemma filter_subject (d : string) (pairs : list (Pair num)) :
  Forall (λ p, subject p = d) (List.filter (λ p, String.eqb (subject p) d) pairs).
Proof.
  apply Forall_forall. intros p Hp. apply list_elem_of_In, List.filter_In in Hp as [_ Hp].
  apply String.eqb_eq, Hp.
Qed.

(** X5.  The four lists of pairs by donor are the pairs of the four donors:
    together they hold each of these pairs once, each list holds the pairs
    of its donor only, and a pair of any other subject is in none of
    them. *)
Theorem donor_pairs_split (pairs : list (Pair num)) :
  d1_pairs pairs ++ d2_pairs pairs ++ d3_pairs pairs ++ d4_pairs pairs
    ≡ₚ List.filter known_donor pairs
  ∧ Forall (λ p, subject p = "donor_1") (d1_pairs pairs)
  ∧ Forall (λ p, subject p = "donor_2") (d2_pairs pairs)
  ∧ Forall (λ p, subject p = "donor_3") (d3_pairs pairs)
  ∧ Forall (λ p, subject p = "donor_4") (d4_pairs pairs)
  ∧ (∀ p, known_donor p = false →
       ¬ In p (d1_pairs pairs ++ d2_pairs pairs ++ d3_pairs pairs ++ d4_pairs pairs)).
Proof.
  assert (Hperm : d1_pairs pairs ++ d2_pairs pairs ++ d3_pairs pairs ++ d4_pairs pairs
                  ≡ₚ List.filter known_donor pairs).
  { unfold d1_pairs, d2_pairs, d3_pairs, d4_pairs.
    induction pairs as [|p pairs IH]; [reflexivity|].
    cbn [List.filter]. unfold known_donor at 1, donors. cbn [existsb].
    destruct (String.eqb_spec (subject p) "donor_1") as [E1|E1]; [rewrite ?E1|];
      [cbn; apply Permutation_skip, IH|].
    destruct (String.eqb_spec (subject p) "donor_2") as [E2|E2]; [rewrite ?E2|];
      [cbn; rewrite <- Permutation_middle; apply Permutation_skip, IH|].
    destruct (String.eqb_spec (subject p) "donor_3") as [E3|E3]; [rewrite ?E3|];
      [cbn; rewrite (app_assoc (List.filter _ pairs)), <- Permutation_middle,
         <- app_assoc; apply Permutation_skip, IH|].
    destruct (String.eqb_spec (subject p) "donor_4") as [E4|E4]; [rewrite ?E4|];
      [cbn; rewrite !app_assoc, <- Permutation_middle, <- !app_assoc;
       apply Permutation_skip, IH|].
    cbn. exact IH. }
  split; [exact Hperm|]. repeat split; try apply filter_subject.
  intros p Hk Hin. apply list_elem_of_In in Hin. rewrite Hperm in Hin.
  apply list_elem_of_In, List.filter_In in Hin as [_ Hin]. congruence.
Qed.
End DonorPairs.

(** ** The bubble plot data: [mutation_bubbleplot] *)

Section Bubbleplot.
Import Zika.
Context {num : Type}.
Variable miss : missing_key.
Variable sub100 : num → result num.
Variable ltb : num → num → bool.

Local Abbreviation bubble_entry := (Zika.bubble_entry miss sub100 ltb).
Local Abbreviation min_step := (Zika.min_step ltb).
Local Abbreviation max_step := (Zika.max_step ltb).
Local Abbreviation mutations_of := (Zika.mutations_of miss sub100).
Local Abbreviation is_least := (Zika.is_least ltb).
Local Abbreviation is_greatest := (Zika.is_greatest ltb).
Local Abbreviation divergence := (Zika.divergence sub100).

(** *** The metric of a pair *)

Lemma mutation_Ok (p : Pair num) (m : num) :
  mutation miss sub100 p = Ok m ↔ divergence p m.
Proof.
  unfold mutation, Zika.divergence, nt_identity_v, opt_getitem, seq_getitem, getitem,
    mbind, result_bind.
  destruct (heavy p) as [s|].
  - destruct (annotations s !! "nt_identity") as [a|].
    + destruct a as [|n|t|vs|d];
        try (split; [discriminate|intros (v & Hv & _); discriminate]).
      destruct (d !! "v") as [[|x|t|vs|d']|];
        try (split; [discriminate|intros (v & Hv & _); discriminate]).
      split.
      * intros Hx. exists x. auto.
      * intros (v & Hv & Hm). injection Hv as <-. exact Hm.
    + destruct miss; (split; [discriminate|intros (v & Hv & _); discriminate]).
  - split; [discriminate|intros (v & Hv & _); discriminate].
Qed.

Lemma mutations_of_Ok (l : Lineage num) (ms : list num) :
  mutations_of l = Ok ms ↔ Forall2 divergence (heavies l) ms.
Proof.
  unfold Zika.mutations_of. rewrite mapM_result_Ok. split; intros H.
  - eapply Forall2_impl; [exact H|]. intros p m. apply mutation_Ok.
  - eapply Forall2_impl; [exact H|]. intros p m. apply mutation_Ok.
Qed.

Lemma lineage_color_Ok (l : Lineage num) (c : string) :
  lineage_color l = Ok c ↔ donor_color l c.
Proof.
  unfold lineage_color, donor_color, color_of. destruct (heavies l) as [|p rest].
  - split; [discriminate|intros (q & t & H & _); discriminate].
  - destruct (color_dict !! subject p) as [c'|] eqn:E; split.
    + intros [= <-]. eauto.
    + intros (q & t & [= <- <-] & Hc). congruence.
    + discriminate.
    + intros (q & t & [= <- <-] & Hc). congruence.
Qed.

Lemma bubble_app_nil_r (a : BubbleData num) : bubble_app a bubble_nil = a.
Proof. destruct a. unfold bubble_app. simpl. rewrite !app_nil_r. reflexivity. Qed.

Lemma bubble_app_nil_l (a : BubbleData num) : bubble_app bubble_nil a = a.
Proof. destruct a. reflexivity. Qed.

Lemma bubble_app_assoc (a b c : BubbleData num) :
  bubble_app a (bubble_app b c) = bubble_app (bubble_app a b) c.
Proof. unfold bubble_app. simpl. rewrite !app_assoc. reflexivity. Qed.

Lemma bubble_loop_step (l : Lineage num) rest acc :
  bubble_loop miss sub100 ltb (l :: rest) acc =
  if (length (heavies l) =? 1)%nat then bubble_loop miss sub100 ltb rest acc
  else
    match bubble_entry l with
    | Ok d => bubble_loop miss sub100 ltb rest (bubble_app acc d)
    | Raise e => Raise e
    end.
Proof.
  simpl. destruct (length (heavies l) =? 1)%nat; [reflexivity|].
  unfold Zika.bubble_entry, mbind, mret, result_bind, result_ret.
  destruct (mapM _ (heavies l)) as [ms|e]; [|reflexivity].
  destruct (py_min ltb ms) as [x|e]; [|reflexivity].
  destruct (py_max ltb ms) as [y|e]; [|reflexivity].
  destruct (lineage_color l) as [c|e]; reflexivity.
Qed.

Lemma bubble_loop_acc (ls : list (Lineage num)) acc :
  bubble_loop miss sub100 ltb ls acc =
  match bubble_loop miss sub100 ltb ls bubble_nil with
  | Ok d => Ok (bubble_app acc d)
  | Raise e => Raise e
  end.
Proof.
  revert acc. induction ls as [|l ls IH]; intros acc.
  - simpl. rewrite bubble_app_nil_r. reflexivity.
  - rewrite !bubble_loop_step.
    destruct (length (heavies l) =? 1)%nat; [apply IH|].
    destruct (bubble_entry l) as [d|e]; [|reflexivity].
    rewrite (IH (bubble_app acc d)), (IH (bubble_app bubble_nil d)).
    destruct (bubble_loop miss sub100 ltb ls bubble_nil) as [d'|e]; [|reflexivity].
    rewrite bubble_app_nil_l, bubble_app_assoc. reflexivity.
Qed.

Lemma mutation_bubbleplot_nil : mutation_bubbleplot miss sub100 ltb [] = Ok bubble_nil.
Proof. reflexivity. Qed.

Lemma mutation_bubbleplot_cons (l : Lineage num) rest :
  mutation_bubbleplot miss sub100 ltb (l :: rest) =
  if (length (heavies l) =? 1)%nat then mutation_bubbleplot miss sub100 ltb rest
  else
    match bubble_entry l with
    | Ok d =>
        match mutation_bubbleplot miss sub100 ltb rest with
        | Ok d' => Ok (bubble_app d d')
        | Raise e => Raise e
        end
    | Raise e => Raise e
    end.
Proof.
  unfold mutation_bubbleplot. fold (@bubble_nil num). rewrite bubble_loop_step.
  destruct (length (heavies l) =? 1)%nat; [reflexivity|].
  destruct (bubble_entry l) as [d|e]; [|reflexivity].
  rewrite bubble_loop_acc.
  rewrite bubble_app_nil_l. reflexivity.
Qed.

Lemma bubble_entry_empty (l : Lineage num) :
  heavies l = [] → bubble_entry l = Raise ValueError.
Proof. unfold Zika.bubble_entry. intros ->. reflexivity. Qed.

(** C9.  A lineage without any heavy-chain pair is not skipped, the test
    being [len(l.heavies) == 1]: the aggregation of a collection that
    contains one raises, and when the lineages before it are all skipped
    the exception is the [ValueError] of [min] on an empty list. *)
Theorem mutation_bubbleplot_no_heavies (ls1 ls2 : list (Lineage num)) (l : Lineage num) :
  heavies l = [] →
  (length (heavies l) =? 1)%nat = false
  ∧ raises (mutation_bubbleplot miss sub100 ltb (ls1 ++ l :: ls2)) = true
  ∧ (Forall (λ l', length (heavies l') = 1%nat) ls1 →
     mutation_bubbleplot miss sub100 ltb (ls1 ++ l :: ls2) = Raise ValueError).
Proof.
  intros Hl. split; [rewrite Hl; reflexivity|]. split.
  - induction ls1 as [|l1 ls1 IH]; simpl app; rewrite mutation_bubbleplot_cons.
    + rewrite Hl, (bubble_entry_empty l Hl). reflexivity.
    + destruct (length (heavies l1) =? 1)%nat; [exact IH|].
      destruct (bubble_entry l1); [|reflexivity].
      destruct (mutation_bubbleplot _ _ _ (ls1 ++ l :: ls2)); [discriminate|reflexivity].
  - induction ls1 as [|l1 ls1 IH]; intros Hone; simpl app; rewrite mutation_bubbleplot_cons.
    + rewrite Hl, (bubble_entry_empty l Hl). reflexivity.
    + inversion Hone as [|? ? H1 Hrest]; subst. rewrite H1. simpl. apply IH, Hrest.
Qed.

(** *** Python's [min] and [max] *)

Section Order.
Hypothesis ltb_irrefl : ∀ a, ltb a a = false.
Hypothesis ltb_trans : ∀ a b c, ltb a b = true → ltb b c = true → ltb a c = true.

Lemma ltb_not_below a b c : ltb a b = true → ltb c b = false → ltb c a = false.
Proof.
  intros Hab Hcb. destruct (ltb c a) eqn:Hca; [|reflexivity].
  rewrite (ltb_trans c a b Hca Hab) in Hcb. discriminate.
Qed.

Lemma ltb_not_above a b c : ltb a b = true → ltb a c = false → ltb b c = false.
Proof.
  intros Hab Hac. destruct (ltb b c) eqn:Hbc; [|reflexivity].
  rewrite (ltb_trans a b c Hab Hbc) in Hac. discriminate.
Qed.

Lemma fold_min_least (rest seen : list num) (cur : num) :
  In cur seen → (∀ m, In m seen → ltb m cur = false) →
  let r := fold_left min_step rest cur in
  In r (seen ++ rest) ∧ ∀ m, In m (seen ++ rest) → ltb m r = false.
Proof.
  revert seen cur. induction rest as [|item rest IH]; intros seen cur Hin Hleast; simpl.
  - rewrite app_nil_r. auto.
  - replace (seen ++ item :: rest) with ((seen ++ [item]) ++ rest)
      by (rewrite <- app_assoc; reflexivity).
    apply IH; unfold Zika.min_step.
    + destruct (ltb item cur); apply in_or_app; simpl; auto.
    + intros m Hm. apply in_app_or in Hm as [Hm|[<-|[]]].
      * destruct (ltb item cur) eqn:Hlt; [|auto].
        eapply ltb_not_below; eauto.
      * destruct (ltb item cur) eqn:Hlt; [apply ltb_irrefl|assumption].
Qed.

Lemma fold_max_greatest (rest seen : list num) (cur : num) :
  In cur seen → (∀ m, In m seen → ltb cur m = false) →
  let r := fold_left max_step rest cur in
  In r (seen ++ rest) ∧ ∀ m, In m (seen ++ rest) → ltb r m = false.
Proof.
  revert seen cur. induction rest as [|item rest IH]; intros seen cur Hin Hmost; simpl.
  - rewrite app_nil_r. auto.
  - replace (seen ++ item :: rest) with ((seen ++ [item]) ++ rest)
      by (rewrite <- app_assoc; reflexivity).
    apply IH; unfold Zika.max_step.
    + destruct (ltb cur item); apply in_or_app; simpl; auto.
    + intros m Hm. apply in_app_or in Hm as [Hm|[<-|[]]].
      * destruct (ltb cur item) eqn:Hlt; [|auto].
        eapply ltb_not_above; eauto.
      * destruct (ltb cur item) eqn:Hlt; [apply ltb_irrefl|assumption].
Qed.

Lemma py_min_least (l : list num) (x : num) :
  py_min ltb l = Ok x → In x l ∧ ∀ m, In m l → ltb m x = false.
Proof.
  destruct l as [|a rest]; [discriminate|].
  intros [= <-]. apply (fold_min_least rest [a] a); simpl; [auto|].
  intros m [<-|[]]. apply ltb_irrefl.
Qed.

Lemma py_max_greatest (l : list num) (y : num) :
  py_max ltb l = Ok y → In y l ∧ ∀ m, In m l → ltb y m = false.
Proof.
  destruct l as [|a rest]; [discriminate|].
  intros [= <-]. apply (fold_max_greatest rest [a] a); simpl; [auto|].
  intros m [<-|[]]. apply ltb_irrefl.
Qed.

Lemma bubble_entry_Ok (l : Lineage num) (d : BubbleData num) :
  bubble_entry l = Ok d →
  ∃ ms x y c, mutations_of l = Ok ms ∧ is_least x ms ∧ is_greatest y ms
    ∧ lineage_color l = Ok c ∧ heavies l ≠ []
    ∧ d = mkBubbleData [x] [y] [c] [(45 * Z.of_nat (length (heavies l)))%Z].
Proof.
  unfold Zika.bubble_entry, Zika.mutations_of, mbind, mret, result_bind, result_ret.
  destruct (mapM _ (heavies l)) as [ms|e] eqn:Hms; [|discriminate].
  destruct (py_min ltb ms) as [x|e] eqn:Hx; [|discriminate].
  destruct (py_max ltb ms) as [y|e] eqn:Hy; [|discriminate].
  destruct (lineage_color l) as [c|e] eqn:Hc; [|discriminate].
  intros [= <-]. exists ms, x, y, c. repeat split; try reflexivity.
  - apply py_min_least in Hx. apply Hx.
  - apply py_min_least in Hx. apply Hx.
  - apply py_max_greatest in Hy. apply Hy.
  - apply py_max_greatest in Hy. apply Hy.
  - intros Hnil. unfold lineage_color in Hc. rewrite Hnil in Hc. discriminate.
Qed.

Lemma bubble_entry_total (l : Lineage num) :
  heavies l ≠ [] →
  Forall (λ p, raises (mutation miss sub100 p) = false) (heavies l) →
  raises (lineage_color l) = false →
  ∃ d, bubble_entry l = Ok d.
Proof.
  intros Hne Hall Hc. unfold Zika.bubble_entry.
  destruct (mapM_result_total _ _ Hall) as [ms Hms]. rewrite Hms.
  apply raises_false_Ok in Hc as [c ->].
  unfold mbind, mret, result_bind, result_ret.
  destruct ms as [|m ms].
  - apply mapM_result_length in Hms. destruct (heavies l); [congruence|discriminate].
  - simpl. eauto.
Qed.

(** C6.  When the aggregation runs to the end, its output has one entry
    for each lineage with more than one heavy pair, in their order, and
    none for a lineage with exactly one.  Read off the annotations: the x
    of an entry is a least and its y a greatest element of the values 100
    minus percent identity, [100. - v] for the number [v] under
    [nt_identity], [v] of the heavy record, of the heavy pairs of its
    lineage; its area is 45 times their number, and its color the one of
    the donor of the first of them.  The aggregation runs to the end
    exactly when every lineage that has not exactly one heavy pair has one
    at least, each of them with a numeric identity from which 100. can be
    subtracted, and the first of a known donor. *)
Theorem mutation_bubbleplot_range (ls : list (Lineage num)) :
  (∀ out, mutation_bubbleplot miss sub100 ltb ls = Ok out →
     Forall2 (λ l x, ∃ ms, Forall2 divergence (heavies l) ms ∧ is_least x ms)
       (plotted ls) (xs out)
     ∧ Forall2 (λ l y, ∃ ms, Forall2 divergence (heavies l) ms ∧ is_greatest y ms)
         (plotted ls) (ys out)
     ∧ Forall2 donor_color (plotted ls) (cs out)
     ∧ areas out = List.map (λ l, (45 * Z.of_nat (length (heavies l)))%Z) (plotted ls)
     ∧ ∀ l, In l ls → length (heavies l) = 1%nat → ¬ In l (plotted ls))
  ∧ ((∃ out, mutation_bubbleplot miss sub100 ltb ls = Ok out) ↔
     Forall (λ l, length (heavies l) = 1%nat
                  ∨ (heavies l ≠ []
                     ∧ Forall (λ p, ∃ m, divergence p m) (heavies l)
                     ∧ ∃ c, donor_color l c)) ls).
Proof.
  split; [|split].
  - induction ls as [|l rest IH]; intros out Hout.
    + injection Hout as <-. simpl. repeat split; try constructor. intros l [].
    + rewrite mutation_bubbleplot_cons in Hout. unfold plotted. simpl.
      destruct (length (heavies l) =? 1)%nat eqn:Hone.
      * apply Nat.eqb_eq in Hone. rewrite Hone. simpl.
        destruct (IH out Hout) as (Hx & Hy & Hc & Ha & Hskip).
        repeat split; try assumption.
        intros l' [<-|Hin] Hlen; [|apply Hskip; assumption].
        intros Hin. apply List.filter_In in Hin as [_ Hgt].
        rewrite Hlen in Hgt. discriminate.
      * destruct (bubble_entry l) as [d|e] eqn:Hd; [|discriminate].
        destruct (mutation_bubbleplot miss sub100 ltb rest) as [d'|e]; [|discriminate].
        injection Hout as <-.
        apply bubble_entry_Ok in Hd as (ms & x & y & c & Hms & Hx & Hy & Hc & Hne & ->).
        apply mutations_of_Ok in Hms. apply lineage_color_Ok in Hc.
        destruct (IH d' eq_refl) as (IHx & IHy & IHc & IHa & IHskip).
        apply Nat.eqb_neq in Hone.
        assert (Hgt : (1 <? length (heavies l))%nat = true).
        { apply Nat.ltb_lt. destruct (heavies l) as [|p [|q t]]; simpl in *; [congruence|lia|lia]. }
        rewrite Hgt. simpl. repeat split.
        -- constructor; eauto.
        -- constructor; eauto.
        -- constructor; eauto.
        -- f_equal. exact IHa.
        -- intros l' Hin Hlen [Heq|Hin']; [subst l'; congruence|].
           destruct Hin as [Heq|Hin]; [subst l'; congruence|].
           apply (IHskip l'); assumption.
  - induction ls as [|l rest IH]; intros [out Hout]; [constructor|].
    rewrite mutation_bubbleplot_cons in Hout.
    destruct (length (heavies l) =? 1)%nat eqn:Hone.
    + apply Nat.eqb_eq in Hone. constructor; [left; exact Hone|]. apply IH. eauto.
    + destruct (bubble_entry l) as [d|e] eqn:Hd; [|discriminate].
      destruct (mutation_bubbleplot miss sub100 ltb rest) as [d'|e]; [|discriminate].
      apply bubble_entry_Ok in Hd as (ms & x & y & c & Hms & _ & _ & Hc & Hne & _).
      apply mutations_of_Ok in Hms. apply lineage_color_Ok in Hc.
      constructor; [|apply IH; eauto].
      right. split; [exact Hne|]. split; [|eauto].
      clear -Hms. induction Hms; constructor; eauto.
  - induction 1 as [|l rest Hl Hrest IH]; [eexists; reflexivity|].
    rewrite mutation_bubbleplot_cons. destruct IH as [d' ->].
    destruct Hl as [Hone|(Hne & Hall & c & Hc)].
    + rewrite Hone. simpl. eauto.
    + destruct (length (heavies l) =? 1)%nat; [eauto|].
      apply lineage_color_Ok in Hc.
      assert (Hall' : Forall (λ p, raises (mutation miss sub100 p) = false) (heavies l)).
      { eapply Forall_impl; [exact Hall|]. intros p [m Hm].
        apply mutation_Ok in Hm. rewrite Hm. reflexivity. }
      assert (Hc' : raises (lineage_color l) = false) by (rewrite Hc; reflexivity).
      destruct (bubble_entry_total l Hne Hall' Hc') as [d ->]. eauto.
Qed.
End Order.
End Bubbleplot.

(** ** More on [mutation_bubbleplot]: concatenation, the shape of the
       output, skipped lineages and exceptions *)

Section BubbleplotMore.
Import Zika.
Context {num : Type}.
Variable miss : missing_key.
Variable sub100 : num → result num.
Variable ltb : num → num → bool.

Local Abbreviation bubble_entry := (Zika.bubble_entry miss sub100 ltb).
Local Abbreviation bubbleplot := (mutation_bubbleplot miss sub100 ltb).

Lemma mutation_bubbleplot_app_eq (ls1 ls2 : list (Lineage num)) :
  bubbleplot (ls1 ++ ls2) =
  match bubbleplot ls1 with
  | Ok out1 =>
      match bubbleplot ls2 with
      | Ok out2 => Ok (bubble_app out1 out2)
      | Raise e => Raise e
      end
  | Raise e => Raise e
  end.
Proof.
  induction ls1 as [|l ls1 IH].
  - simpl app. rewrite mutation_bubbleplot_nil.
    destruct (bubbleplot ls2) as [out2|e]; [|reflexivity].
    rewrite bubble_app_nil_l. reflexivity.
  - simpl app. rewrite !mutation_bubbleplot_cons, IH.
    destruct (length (heavies l) =? 1)%nat; [reflexivity|].
    destruct (Zika.bubble_entry miss sub100 ltb l) as [d|e]; [|reflexivity].
    destruct (bubbleplot ls1) as [out1|e]; [|reflexivity].
    destruct (bubbleplot ls2) as [out2|e]; [|reflexivity].
    rewrite bubble_app_assoc. reflexivity.
Qed.

(** X6.  The data of a concatenation of lineage lists is the field-wise
    concatenation of their data, and the first exception when one of them
    raises; so for [all_lineages], the lists of the four donors in turn. *)
Theorem mutation_bubbleplot_app (d1 d2 d3 d4 : list (Lineage num)) :
  bubbleplot (d1 ++ d2) =
    match bubbleplot d1 with
    | Ok out1 =>
        match bubbleplot d2 with
        | Ok out2 => Ok (bubble_app out1 out2)
        | Raise e => Raise e
        end
    | Raise e => Raise e
    end
  ∧ (∀ out1 out2 out3 out4,
       bubbleplot d1 = Ok out1 → bubbleplot d2 = Ok out2 →
       bubbleplot d3 = Ok out3 → bubbleplot d4 = Ok out4 →
       bubbleplot (all_lineages d1 d2 d3 d4)
       = Ok (bubble_app (bubble_app (bubble_app out1 out2) out3) out4)).
Proof.
  split; [apply mutation_bubbleplot_app_eq|].
  intros out1 out2 out3 out4 H1 H2 H3 H4. unfold all_lineages.
  rewrite !mutation_bubbleplot_app_eq, H1, H2, H3, H4. reflexivity.
Qed.

(** *** The shape of the output *)

Lemma bubble_entry_shape (l : Lineage num) (d : BubbleData num) :
  Zika.bubble_entry miss sub100 ltb l = Ok d →
  ∃ x y c, d = mkBubbleData [x] [y] [c] [(45 * Z.of_nat (length (heavies l)))%Z]
    ∧ heavies l ≠ [] ∧ lineage_color l = Ok c.
Proof.
  unfold Zika.bubble_entry, mbind, mret, result_bind, result_ret.
  destruct (mapM _ (heavies l)) as [ms|e] eqn:Hms; [|discriminate].
  destruct (py_min ltb ms) as [x|e] eqn:Hx; [|discriminate].
  destruct (py_max ltb ms) as [y|e] eqn:Hy; [|discriminate].
  destruct (lineage_color l) as [c|e] eqn:Hc; [|discriminate].
  intros [= <-]. exists x, y, c. repeat split.
  intros Hnil. unfold lineage_color in Hc. rewrite Hnil in Hc. discriminate.
Qed.

Lemma lineage_color_palette (l : Lineage num) (c : string) :
  lineage_color l = Ok c → c ∈ colors.
Proof.
  unfold lineage_color. destruct (heavies l) as [|p rest]; [discriminate|].
  intros Hc. apply color_of_Ok in Hc as (i & _ & Hi).
  apply list_elem_of_lookup. eauto.
Qed.

(** X7.  When the aggregation succeeds, the four lists have the same length,
    the number of lineages with more than one heavy pair; every area is 45
    times a count of at least two, every color is one of the palette, and
    no lineage of the input was without heavy pairs. *)
Theorem mutation_bubbleplot_shape (ls : list (Lineage num)) (out : BubbleData num) :
  bubbleplot ls = Ok out →
  length (xs out) = length (plotted ls)
  ∧ length (ys out) = length (plotted ls)
  ∧ length (cs out) = length (plotted ls)
  ∧ length (areas out) = length (plotted ls)
  ∧ Forall bubble_area (areas out)
  ∧ Forall (λ c, c ∈ colors) (cs out)
  ∧ Forall (λ l, heavies l ≠ []) ls.
Proof.
  revert out. induction ls as [|l rest IH]; intros out Hout.
  - injection Hout as <-. simpl. repeat split; constructor.
  - rewrite mutation_bubbleplot_cons in Hout. unfold plotted. simpl.
    destruct (length (heavies l) =? 1)%nat eqn:Hone.
    + apply Nat.eqb_eq in Hone. rewrite Hone. simpl.
      destruct (IH out Hout) as (H1 & H2 & H3 & H4 & H5 & H6 & H7).
      repeat split; try assumption. constructor; [|exact H7].
      intros Hnil. rewrite Hnil in Hone. discriminate.
    + destruct (Zika.bubble_entry miss sub100 ltb l) as [d|e] eqn:Hd; [|discriminate].
      destruct (bubbleplot rest) as [out'|e]; [|discriminate].
      injection Hout as <-.
      apply bubble_entry_shape in Hd as (x & y & c & -> & Hne & Hc).
      destruct (IH out' eq_refl) as (H1 & H2 & H3 & H4 & H5 & H6 & H7).
      apply Nat.eqb_neq in Hone.
      assert (Hlen : (2 ≤ length (heavies l))%nat).
      { destruct (heavies l) as [|p [|q t]]; simpl in *; [congruence|lia|lia]. }
      assert (Hgt : (1 <? length (heavies l))%nat = true) by (apply Nat.ltb_lt; lia).
      rewrite Hgt. simpl. fold (plotted rest).
      repeat split; try (f_equal; assumption).
      * constructor; [|exact H5]. exists (length (heavies l)). auto.
      * constructor; [|exact H6]. eapply lineage_color_palette, Hc.
      * constructor; assumption.
Qed.

(** X8.  A lineage with exactly one heavy pair is never looked into: with or
    without it the outcome is the same, whatever its pair holds. *)
Theorem mutation_bubbleplot_skip (ls1 ls2 : list (Lineage num)) (l : Lineage num) :
  length (heavies l) = 1%nat →
  bubbleplot (ls1 ++ l :: ls2) = bubbleplot (ls1 ++ ls2).
Proof.
  intros Hone. rewrite !mutation_bubbleplot_app_eq, mutation_bubbleplot_cons, Hone.
  reflexivity.
Qed.

(** *** Exceptions *)

Lemma mutation_Raise (p : Pair num) (e : exn) :
  mutation miss sub100 p = Raise e →
  e = KeyError ∨ e = TypeError ∨ ∃ v, nt_identity_v p = Some v ∧ sub100 v = Raise e.
Proof.
  unfold mutation, nt_identity_v, opt_getitem, seq_getitem, getitem, mbind, result_bind.
  intros H. destruct (heavy p) as [s|]; [|injection H as <-; auto].
  destruct (annotations s !! "nt_identity") as [a|].
  - destruct a as [| | | |d]; try (injection H as <-; auto).
    destruct (d !! "v") as [[|x| | |]|]; try (injection H as <-; auto).
    right. right. exists x. auto.
  - destruct miss; injection H as <-; auto.
Qed.

Lemma bubble_entry_Raise (l : Lineage num) (e : exn) :
  Zika.bubble_entry miss sub100 ltb l = Raise e →
  (e = ValueError ∧ heavies l = [])
  ∨ e = KeyError ∨ e = TypeError
  ∨ ∃ p v, In p (heavies l) ∧ nt_identity_v p = Some v ∧ sub100 v = Raise e.
Proof.
  unfold Zika.bubble_entry.
  destruct (mapM (mutation miss sub100) (heavies l)) as [ms|e'] eqn:Hms.
  - unfold mbind, mret, result_bind, result_ret.
    destruct ms as [|m ms].
    + simpl. intros [= <-]. left. split; [reflexivity|].
      apply mapM_result_length in Hms. destruct (heavies l); [reflexivity|discriminate].
    + simpl. unfold lineage_color. destruct (heavies l) as [|p rest] eqn:Hh.
      * apply mapM_result_length in Hms. discriminate.
      * unfold color_of. destruct (color_dict !! subject p); [discriminate|].
        intros [= <-]. auto.
  - unfold mbind, result_bind. intros [= ->].
    apply mapM_result_Raise in Hms as (p & Hin & Hp).
    apply mutation_Raise in Hp as [->|[->|(v & Hv & Hsub)]]; [auto|auto|].
    right. right. right. exists p, v. auto.
Qed.

(** X9.  The exceptions of the aggregation, when the subtraction
    [100. - v] raises nothing but its [OverflowError]: they are
    [KeyError], [TypeError], [ValueError] and [OverflowError], and
    [l.heavies[0]] is never reached on an empty list.  A [ValueError] comes
    from a lineage without heavy pairs and from nothing else, an
    [OverflowError] from the identity of a heavy pair that is too large
    for a float. *)
Theorem mutation_bubbleplot_exceptions (ls : list (Lineage num)) (e : exn) :
  (∀ v e', sub100 v = Raise e' → e' = OverflowError) →
  bubbleplot ls = Raise e →
  (e = KeyError ∨ e = TypeError ∨ e = ValueError ∨ e = OverflowError)
  ∧ (e = ValueError → ∃ l, In l ls ∧ heavies l = [])
  ∧ (e = OverflowError →
     ∃ l p v, In l ls ∧ In p (heavies l) ∧ nt_identity_v p = Some v
              ∧ sub100 v = Raise OverflowError).
Proof.
  intros Hsub. induction ls as [|l rest IH]; [discriminate|].
  rewrite mutation_bubbleplot_cons.
  assert (Hrest : bubbleplot rest = Raise e →
                  (e = KeyError ∨ e = TypeError ∨ e = ValueError ∨ e = OverflowError)
                  ∧ (e = ValueError → ∃ l0, In l0 (l :: rest) ∧ heavies l0 = [])
                  ∧ (e = OverflowError →
                     ∃ l0 p v, In l0 (l :: rest) ∧ In p (heavies l0)
                               ∧ nt_identity_v p = Some v
                               ∧ sub100 v = Raise OverflowError)).
  { intros H. destruct (IH H) as (Hk & Hv & Ho). split; [exact Hk|]. split.
    - intros He. destruct (Hv He) as (l0 & Hin & Hl0). exists l0. split; [right|]; assumption.
    - intros He. destruct (Ho He) as (l0 & p & v & Hin & Hrem). exists l0, p, v.
      split; [right; exact Hin|exact Hrem]. }
  destruct (length (heavies l) =? 1)%nat; [exact Hrest|].
  destruct (Zika.bubble_entry miss sub100 ltb l) as [d|e'] eqn:Hd.
  - destruct (bubbleplot rest) as [out|e'']; [discriminate|].
    intros [= ->]. apply Hrest. reflexivity.
  - intros [= ->].
    destruct (bubble_entry_Raise l e Hd) as [[-> Hnil]|[->|[->|(p & v & Hin & Hv & Hr)]]].
    + split; [auto|]. split; [|discriminate]. intros _. exists l. split; [left; reflexivity|exact Hnil].
    + split; [auto|]. split; discriminate.
    + split; [auto|]. split; discriminate.
    + pose proof (Hsub v e Hr) as ->. split; [auto 6|]. split; [discriminate|].
      intros _. exists l, p, v. split; [left; reflexivity|auto].
Qed.

(** *** The diagonal *)

Section Diagonal.
Hypothesis ltb_irrefl : ∀ a, ltb a a = false.
Hypothesis ltb_trans : ∀ a b c, ltb a b = true → ltb b c = true → ltb a c = true.

(** X10.  No bubble lies below the diagonal: the y of an entry is never less
    than its x. *)
Theorem mutation_bubbleplot_diagonal (ls : list (Lineage num)) (out : BubbleData num) :
  bubbleplot ls = Ok out →
  Forall2 (λ x y, ltb y x = false) (xs out) (ys out).
Proof.
  revert out. induction ls as [|l rest IH]; intros out Hout.
  - injection Hout as <-. constructor.
  - rewrite mutation_bubbleplot_cons in Hout.
    destruct (length (heavies l) =? 1)%nat; [apply IH, Hout|].
    destruct (Zika.bubble_entry miss sub100 ltb l) as [d|e] eqn:Hd; [|discriminate].
    destruct (bubbleplot rest) as [out'|e]; [|discriminate].
    injection Hout as <-.
    apply (bubble_entry_Ok miss sub100 ltb ltb_irrefl ltb_trans) in Hd
      as (ms & x & y & c & _ & [_ Hleast] & [Hy _] & _ & _ & ->).
    simpl. constructor; [apply Hleast, Hy|apply IH; reflexivity].
Qed.
End Diagonal.
End BubbleplotMore.

(** ** The Zika notebook on sample data *)

Section ZikaSamples.
Import Zika Samples.

(** C1, counterexample.  A pair whose heavy record lacks the requested
    field is not left out: the aggregation over it raises, under either
    convention for a key that is not annotated, where the specification
    promises an empty sequence. *)
Lemma get_nt_mutations_field_missing :
  projected "heavy" true [paired_bare] = [paired_bare]
  ∧ get_nt_mutations MissingRaises [paired_bare] "heavy" true = Raise KeyError
  ∧ get_nt_mutations MissingIsNone [paired_bare] "heavy" true = Raise TypeError.
Proof. repeat split; vm_compute; reflexivity. Qed.

(** The heavy-chain branch filters on [p.heavy], the light-chain branch on
    [p] itself: a pair without a light chain reaches [s.light[...]]. *)
Example get_nt_mutations_chain_absent :
  get_nt_mutations MissingRaises [light_only; paired_a] "heavy" false
    = Ok [mkMutRow (VNum 12%Z) "1" "#004E64"]
  ∧ get_nt_mutations MissingRaises [heavy_only; paired_a] "light" false = Raise TypeError
  ∧ get_nt_mutations MissingRaises [heavy_only; paired_a] "light" true
    = Ok [mkMutRow (VNum 4%Z) "1" "#004E64"].
Proof. repeat split; vm_compute; reflexivity. Qed.

Example get_nt_mutations_just_pairs_sample :
  get_nt_mutations MissingRaises [paired_a; heavy_only; paired_b] "heavy" true
    = Ok [mkMutRow (VNum 12%Z) "1" "#004E64"; mkMutRow (VNum 30%Z) "1" "#004E64"]
  ∧ get_nt_mutations MissingRaises [paired_a; heavy_only; paired_b] "heavy" false
    = Ok [mkMutRow (VNum 12%Z) "1" "#004E64"; mkMutRow (VNum 7%Z) "2" "#5FAD56";
          mkMutRow (VNum 30%Z) "1" "#004E64"].
Proof. split; vm_compute; reflexivity. Qed.

Example mutation_bubbleplot_sample :
  mutation_bubbleplot MissingRaises minus100 Z.ltb [lineage_c; lineage_ab]
  = Ok (mkBubbleData [5%Z] [12%Z] ["#004E64"] [90%Z]).
Proof. vm_compute. reflexivity. Qed.

(** Python's [100. - v] on the integers: the difference where it is
    exact, its rounding to 53 bits beyond, [OverflowError] for an [int]
    that no float holds. *)
Example minus100_sample :
  minus100 95 = Ok 5%Z
  ∧ minus100 (2 ^ 53 + 1) = Ok (100 - 2 ^ 53)%Z
  ∧ minus100 (2 ^ 1024 - 2 ^ 970 - 1) = Ok (- (2 ^ 1024 - 2 ^ 971))%Z
  ∧ minus100 (2 ^ 1024 - 2 ^ 970) = Raise OverflowError.
Proof. repeat split; vm_compute; reflexivity. Qed.

(** C6 on the sample lineages, for integers and their order: the pairs of
    the lineage that is plotted are 95 and 88 percent identical to their
    germline, and its entry is at 5 and 12. *)
Lemma mutation_bubbleplot_range_witness :
  (∀ a, Z.ltb a a = false)
  ∧ (∀ a b c, Z.ltb a b = true → Z.ltb b c = true → Z.ltb a c = true)
  ∧ List.map nt_identity_v (heavies lineage_ab) = [Some 95%Z; Some 88%Z]
  ∧ mutation_bubbleplot MissingRaises minus100 Z.ltb [lineage_c; lineage_ab]
    = Ok (mkBubbleData [5%Z] [12%Z] ["#004E64"] [90%Z])
  ∧ Forall2 (λ l x, ∃ ms, Forall2 (divergence minus100) (heavies l) ms
                      ∧ is_least Z.ltb x ms)
      (plotted [lineage_c; lineage_ab]) [5%Z]
  ∧ Forall2 (λ l y, ∃ ms, Forall2 (divergence minus100) (heavies l) ms
                      ∧ is_greatest Z.ltb y ms)
      (plotted [lineage_c; lineage_ab]) [12%Z].
Proof.
  assert (Hirr : ∀ a, Z.ltb a a = false) by apply Z.ltb_irrefl.
  assert (Htr : ∀ a b c, Z.ltb a b = true → Z.ltb b c = true → Z.ltb a c = true).
  { intros a b c. rewrite !Z.ltb_lt. lia. }
  assert (H : mutation_bubbleplot MissingRaises minus100 Z.ltb [lineage_c; lineage_ab]
              = Ok (mkBubbleData [5%Z] [12%Z] ["#004E64"] [90%Z]))
    by (vm_compute; reflexivity).
  split; [exact Hirr|]. split; [exact Htr|]. split; [vm_compute; reflexivity|].
  split; [exact H|].
  pose proof (proj1 (mutation_bubbleplot_range MissingRaises minus100 Z.ltb Hirr Htr
                       [lineage_c; lineage_ab]) _ H) as (Hx & Hy & _).
  split; [exact Hx|exact Hy].
Defined.

(** C9 on the sample lineages: the lineage without heavy pairs stands
    behind a singleton, which is skipped. *)
Lemma mutation_bubbleplot_no_heavies_witness :
  heavies lineage_none = []
  ∧ mutation_bubbleplot MissingRaises minus100 Z.ltb [lineage_c; lineage_none; lineage_ab]
    = Raise ValueError.
Proof.
  split; [reflexivity|].
  apply (mutation_bubbleplot_no_heavies MissingRaises minus100 Z.ltb
           [lineage_c] [lineage_ab] lineage_none eq_refl).
  repeat constructor.
Defined.
End ZikaSamples.

(** ** More of the Zika notebook on sample data *)

Section ZikaMoreSamples.
Import Zika Samples.

(** X1 on the samples: the light-chain branch on a pair without a light
    chain *)
Lemma get_nt_mutations_light_witness :
  "light" ≠ "heavy"
  ∧ get_nt_mutations MissingRaises [heavy_only; paired_a] "light" false = Raise TypeError.
Proof.
  assert (Hc : "light" ≠ "heavy") by discriminate.
  split; [exact Hc|].
  apply (proj2 (proj2 (get_nt_mutations_light MissingRaises [heavy_only; paired_a]
                         "light" false Hc)) heavy_only [paired_a]); reflexivity.
Defined.

(** X4 on the samples: the default aggregation against the one of all the
    pairs *)
Lemma get_nt_mutations_default_sublist_witness :
  get_nt_mutations MissingRaises [paired_a; heavy_only; paired_b] "heavy" false
    = Ok [mkMutRow (VNum 12%Z) "1" "#004E64"; mkMutRow (VNum 7%Z) "2" "#5FAD56";
          mkMutRow (VNum 30%Z) "1" "#004E64"]
  ∧ ∃ rows, get_nt_mutations MissingRaises [paired_a; heavy_only; paired_b] "heavy" true
            = Ok rows
      ∧ sublist rows [mkMutRow (VNum 12%Z) "1" "#004E64"; mkMutRow (VNum 7%Z) "2" "#5FAD56";
                      mkMutRow (VNum 30%Z) "1" "#004E64"].
Proof.
  assert (H : get_nt_mutations MissingRaises [paired_a; heavy_only; paired_b] "heavy" false
              = Ok [mkMutRow (VNum 12%Z) "1" "#004E64"; mkMutRow (VNum 7%Z) "2" "#5FAD56";
                    mkMutRow (VNum 30%Z) "1" "#004E64"]) by (vm_compute; reflexivity).
  split; [exact H|].
  apply (get_nt_mutations_default_sublist MissingRaises _ "heavy" _ H).
Defined.

(** A pair of a fifth donor *)
Example get_nt_mutations_unknown_donor_sample :
  get_nt_mutations MissingRaises
    [paired_a; mkPair true (heavy paired_a) (light paired_a) "donor_5"] "heavy" true
  = Raise KeyError.
Proof. vm_compute. reflexivity. Qed.

(** X7 on the sample lineages *)
Lemma mutation_bubbleplot_shape_witness :
  mutation_bubbleplot MissingRaises minus100 Z.ltb [lineage_c; lineage_ab]
    = Ok (mkBubbleData [5%Z] [12%Z] ["#004E64"] [90%Z])
  ∧ length [5%Z] = length (plotted [lineage_c; lineage_ab])
  ∧ Forall bubble_area [90%Z].
Proof.
  assert (H : mutation_bubbleplot MissingRaises minus100 Z.ltb [lineage_c; lineage_ab]
              = Ok (mkBubbleData [5%Z] [12%Z] ["#004E64"] [90%Z]))
    by (vm_compute; reflexivity).
  split; [exact H|].
  pose proof (mutation_bubbleplot_shape MissingRaises minus100 Z.ltb _ _ H) as Hs.
  simpl in Hs. split; apply Hs.
Defined.

(** X8 on the samples: the singleton lineage has a pair without
    annotations, and is skipped. *)
Lemma mutation_bubbleplot_skip_witness :
  length (heavies lineage_bare) = 1%nat
  ∧ mutation_bubbleplot MissingRaises minus100 Z.ltb [lineage_ab; lineage_bare; lineage_ab]
    = mutation_bubbleplot MissingRaises minus100 Z.ltb [lineage_ab; lineage_ab].
Proof.
  split; [reflexivity|].
  apply (mutation_bubbleplot_skip MissingRaises minus100 Z.ltb [lineage_ab] [lineage_ab]
           lineage_bare eq_refl).
Defined.

(** X9 on the samples: the lineage without heavy pairs, and the lineage
    with an identity beyond the floats *)
Lemma mutation_bubbleplot_exceptions_witness :
  (∀ v e, minus100 v = Raise e → e = OverflowError)
  ∧ mutation_bubbleplot MissingRaises minus100 Z.ltb [lineage_c; lineage_none] = Raise ValueError
  ∧ (∃ l, In l [lineage_c; lineage_none] ∧ heavies l = [])
  ∧ mutation_bubbleplot MissingRaises minus100 Z.ltb [lineage_ab; lineage_huge]
    = Raise OverflowError
  ∧ ∃ l p v, In l [lineage_ab; lineage_huge] ∧ In p (heavies l)
             ∧ nt_identity_v p = Some v ∧ minus100 v = Raise OverflowError.
Proof.
  assert (Hsub : ∀ v e, minus100 v = Raise e → e = OverflowError).
  { intros v e. unfold minus100, float_of_int, mbind, mret, result_bind, result_ret.
    destruct (2 ^ 1024 <=? Z.abs (round53 v))%Z; [|discriminate].
    intros [= <-]. reflexivity. }
  assert (H : mutation_bubbleplot MissingRaises minus100 Z.ltb [lineage_c; lineage_none]
              = Raise ValueError) by (vm_compute; reflexivity).
  assert (H' : mutation_bubbleplot MissingRaises minus100 Z.ltb [lineage_ab; lineage_huge]
               = Raise OverflowError) by (vm_compute; reflexivity).
  split; [exact Hsub|]. split; [exact H|]. split.
  - apply (mutation_bubbleplot_exceptions MissingRaises minus100 Z.ltb _ _ Hsub H).
    reflexivity.
  - split; [exact H'|].
    apply (mutation_bubbleplot_exceptions MissingRaises minus100 Z.ltb _ _ Hsub H').
    reflexivity.
Defined.

(** X10 on the sample lineages, for integers and their order *)
Lemma mutation_bubbleplot_diagonal_witness :
  (∀ a, Z.ltb a a = false)
  ∧ (∀ a b c, Z.ltb a b = true → Z.ltb b c = true → Z.ltb a c = true)
  ∧ mutation_bubbleplot MissingRaises minus100 Z.ltb [lineage_c; lineage_ab]
    = Ok (mkBubbleData [5%Z] [12%Z] ["#004E64"] [90%Z])
  ∧ Forall2 (λ x y, Z.ltb y x = false) [5%Z] [12%Z].
Proof.
  assert (Hirr : ∀ a, Z.ltb a a = false) by apply Z.ltb_irrefl.
  assert (Htr : ∀ a b c, Z.ltb a b = true → Z.ltb b c = true → Z.ltb a c = true).
  { intros a b c. rewrite !Z.ltb_lt. lia. }
  assert (H : mutation_bubbleplot MissingRaises minus100 Z.ltb [lineage_c; lineage_ab]
              = Ok (mkBubbleData [5%Z] [12%Z] ["#004E64"] [90%Z]))
    by (vm_compute; reflexivity).
  split; [exact Hirr|]. split; [exact Htr|]. split; [exact H|].
  apply (mutation_bubbleplot_diagonal MissingRaises minus100 Z.ltb Hirr Htr _ _ H).
Defined.
End ZikaMoreSamples.

(** ** Truncating the names: the only update of loaded records *)

Section TruncateNames.
Import Tutorial.
Context {num : Type}.
Variable miss : missing_key.

Lemma truncate_normalized (s : Sequence num) : normalized s (truncate s).
Proof.
  unfold normalized, same_data, truncate, seq_setitem, set_id. simpl.
  repeat split.
  - apply lookup_insert_eq.
  - intros key Hkey. apply lookup_insert_ne. congruence.
Qed.

Lemma truncate_idemp (s : Sequence num) : truncate (truncate s) = truncate s.
Proof.
  unfold truncate, seq_setitem, set_id. simpl.
  rewrite split_head_idemp, insert_insert_eq. reflexivity.
Qed.

(** The loop, read at one position of the store. *)
Lemma truncate_loop_lookup (selected : list nat) (store : list (Sequence num)) (i : nat) :
  truncate_loop store selected !! i =
  if decide (i ∈ selected) then truncate <$> store !! i else store !! i.
Proof.
  unfold truncate_loop. revert store.
  induction selected as [|k selected IH]; intros store; simpl.
  - destruct (decide (i ∈ [])) as [Hin|_]; [|reflexivity].
    apply elem_of_nil in Hin. contradiction.
  - rewrite IH. destruct (decide (k = i)) as [->|Hne].
    + rewrite list_lookup_alter_eq.
      destruct (decide (i ∈ selected)), (decide (i ∈ i :: selected)) as [|Hn];
        try reflexivity.
      * destruct (store !! i); simpl; [|reflexivity]. rewrite truncate_idemp. reflexivity.
      * exfalso. apply Hn. left.
      * exfalso. apply Hn. left.
    + rewrite (list_lookup_alter_ne _ _ _ _ Hne).
      destruct (decide (i ∈ selected)) as [Hin|Hnin],
               (decide (i ∈ k :: selected)) as [Hin'|Hnin']; try reflexivity.
      * exfalso. apply Hnin'. right. exact Hin.
      * exfalso. apply elem_of_cons in Hin' as [->|Hin']; [congruence|contradiction].
Qed.

Lemma truncate_loop_length (selected : list nat) (store : list (Sequence num)) :
  length (truncate_loop store selected) = length store.
Proof.
  unfold truncate_loop. revert store.
  induction selected as [|k selected IH]; intros store; simpl; [reflexivity|].
  rewrite IH. apply length_alter.
Qed.

Lemma select_from_lower (seqs : list (Sequence num)) (i : nat) (ks : list nat) :
  select_from miss i seqs = Ok ks → ∀ k, k ∈ ks → (i ≤ k)%nat.
Proof.
  revert i ks. induction seqs as [|s seqs IH]; intros i ks; simpl.
  - intros [= <-] k Hk. apply elem_of_nil in Hk. contradiction.
  - unfold mbind, mret, result_bind, result_ret.
    destruct (is_pct64_heavy miss s) as [b|e]; [|discriminate].
    destruct (select_from miss (S i) seqs) as [ks'|e] eqn:E; [|discriminate].
    intros [= <-] k Hk. specialize (IH _ _ E).
    destruct b.
    + apply elem_of_cons in Hk as [->|Hk]; [lia|]. apply IH in Hk. lia.
    + apply IH in Hk. lia.
Qed.

(** The comprehension selects the positions of the records that satisfy
    its condition, and it raises as soon as the condition does. *)
Lemma select_from_spec (seqs : list (Sequence num)) (i : nat) (ks : list nat) :
  select_from miss i seqs = Ok ks →
  ∀ j s, seqs !! j = Some s →
    (is_pct64_heavy miss s = Ok true ∧ (i + j)%nat ∈ ks)
    ∨ (is_pct64_heavy miss s = Ok false ∧ (i + j)%nat ∉ ks).
Proof.
  revert i ks. induction seqs as [|s seqs IH]; intros i ks; simpl.
  - intros _ j s' Hj. rewrite lookup_nil in Hj. discriminate.
  - unfold mbind, mret, result_bind, result_ret.
    destruct (is_pct64_heavy miss s) as [b|e] eqn:Hb; [|discriminate].
    destruct (select_from miss (S i) seqs) as [ks'|e] eqn:E; [|discriminate].
    intros [= <-] j s' Hj. destruct j as [|j]; simpl in Hj.
    + injection Hj as <-. rewrite Nat.add_0_r, Hb. destruct b.
      * left. split; [reflexivity|]. left.
      * right. split; [reflexivity|]. intros Hin.
        apply (select_from_lower _ _ _ E) in Hin. lia.
    + replace (i + S j)%nat with (S i + j)%nat by lia.
      destruct (IH _ _ E j s' Hj) as [[Hs Hin]|[Hs Hnin]].
      * left. split; [exact Hs|]. destruct b; [right|]; exact Hin.
      * right. split; [exact Hs|]. destruct b; [|exact Hnin].
        intros Hin. apply elem_of_cons in Hin as [Heq|Hin]; [lia|contradiction].
Qed.

(** X14.  The cells that shorten the names leave every record of
    [annotated_seqs] in place, with its sequence and every annotation other
    than [seq_id] as loaded.  A record that is not selected is not touched
    at all; a selected one gets its identifier cut at the first underscore
    (no underscore is left in it) and the same text under [seq_id]. *)
Theorem truncate_names_frame (annotated_seqs store' : list (Sequence num)) :
  truncate_names miss annotated_seqs = Ok store' →
  length store' = length annotated_seqs
  ∧ ∀ i s, annotated_seqs !! i = Some s →
      ∃ s', store' !! i = Some s'
        ∧ same_data s s'
        ∧ ((is_pct64_heavy miss s = Ok false ∧ s' = s)
           ∨ (is_pct64_heavy miss s = Ok true ∧ normalized s s'
              ∧ contains "_" (id s') = false)).
Proof.
  unfold truncate_names, pct64_seqs, mbind, mret, result_bind, result_ret.
  destruct (select_from miss 0 annotated_seqs) as [selected|e] eqn:Hsel; [|discriminate].
  intros [= <-]. split; [apply truncate_loop_length|].
  intros i s Hi. rewrite truncate_loop_lookup, Hi. simpl.
  destruct (select_from_spec _ _ _ Hsel i s Hi) as [[Hs Hin]|[Hs Hnin]]; simpl in *.
  - destruct (decide (i ∈ selected)); [|contradiction].
    exists (truncate s). destruct (truncate_normalized s) as (Hid & Hseq & Hsame).
    split; [reflexivity|]. split; [exact Hsame|]. right.
    split; [exact Hs|]. split; [repeat split; try assumption; apply Hsame|].
    rewrite Hid. apply contains_split_head. discriminate.
  - destruct (decide (i ∈ selected)); [contradiction|].
    exists s. split; [reflexivity|]. split; [split; auto|]. left. auto.
Qed.
End TruncateNames.

(** ** More on the truncation: fixed points, exceptions and running the
       cells again *)

Lemma split_head_no_delim (d s : string) : contains d s = false → split_head d s = s.
Proof.
  induction s as [|c s IH].
  - intros _. apply split_head_empty.
  - cbn [contains split_head]. destruct (strip_prefix d (String c s)); [discriminate|].
    intros H. f_equal. apply IH, H.
Qed.

Section TruncateNamesMore.
Import Tutorial.
Context {num : Type}.
Variable miss : missing_key.

(** X11.  The loop body leaves a record as it is exactly when its identifier has
    no underscore and [seq_id] already holds the identifier.  In any case
    the new identifier is the old one up to, and without, its first
    underscore. *)
Theorem truncate_fixed (s : Sequence num) :
  (truncate s = s ↔
   contains "_" (id s) = false ∧ annotations s !! "seq_id" = Some (VStr (id s)))
  ∧ (id s = id (truncate s) ∨ ∃ rest, id s = id (truncate s) +:+ "_" +:+ rest)
  ∧ contains "_" (id (truncate s)) = false.
Proof.
  split; [|split].
  - split.
    + intros H.
      assert (Hid : split_head "_" (id s) = id s) by (apply (f_equal id) in H; exact H).
      split.
      * rewrite <- Hid. apply contains_split_head. discriminate.
      * apply (f_equal annotations) in H. unfold truncate, seq_setitem, set_id in H.
        simpl in H. rewrite <- H, lookup_insert_eq, Hid. reflexivity.
    + intros [Hno Hseq]. destruct s as [i sq ann]. unfold truncate, seq_setitem, set_id.
      simpl in *. rewrite (split_head_no_delim _ _ Hno), (insert_id _ _ _ Hseq). reflexivity.
  - unfold truncate, seq_setitem, set_id. simpl. apply split_head_cut.
  - unfold truncate, seq_setitem, set_id. simpl. apply contains_split_head. discriminate.
Qed.

(** *** Exceptions *)

Lemma is_pct64_heavy_outcome (s : Sequence num) :
  match annotations s !! "chain", miss with
  | None, MissingRaises => is_pct64_heavy miss s = Raise KeyError
  | None, MissingIsNone => is_pct64_heavy miss s = Ok false
  | Some c, _ => is_pct64_heavy miss s = Ok (contains "PCT64" (id s) && eq_str c "heavy")
  end.
Proof.
  unfold is_pct64_heavy, seq_getitem.
  destruct (annotations s !! "chain") as [c|]; [reflexivity|].
  destruct miss; [reflexivity|]. simpl. rewrite andb_false_r. reflexivity.
Qed.

Lemma select_from_outcome (seqs : list (Sequence num)) (i : nat) :
  match select_from miss i seqs with
  | Ok _ => Forall (λ s, ∃ b, is_pct64_heavy miss s = Ok b) seqs
  | Raise e => e = KeyError ∧ miss = MissingRaises
               ∧ Exists (λ s, annotations s !! "chain" = None) seqs
  end.
Proof.
  revert i. induction seqs as [|s seqs IH]; intros i; simpl; [constructor|].
  unfold mbind, mret, result_bind, result_ret.
  pose proof (is_pct64_heavy_outcome s) as Hs.
  destruct (is_pct64_heavy miss s) as [b|e] eqn:Hb.
  - specialize (IH (S i)). destruct (select_from miss (S i) seqs) as [ks|e].
    + constructor; eauto.
    + destruct IH as (-> & Hm & Hex). repeat split; [exact Hm|]. right. exact Hex.
  - destruct (annotations s !! "chain") as [c|] eqn:Hc; [discriminate|].
    destruct miss; [|discriminate]. injection Hs as <-.
    repeat split. left. exact Hc.
Qed.

Lemma select_from_total (seqs : list (Sequence num)) (i : nat) :
  Forall (λ s, ∃ b, is_pct64_heavy miss s = Ok b) seqs →
  ∃ ks, select_from miss i seqs = Ok ks.
Proof.
  revert i. induction seqs as [|s seqs IH]; intros i Hall; simpl; [eauto|].
  inversion Hall as [|? ? [b Hb] Hrest]; subst.
  unfold mbind, mret, result_bind, result_ret. rewrite Hb.
  destruct (IH (S i) Hrest) as [ks ->]. eauto.
Qed.

(** X12.  The truncation raises only through the selection, only [KeyError],
    and only when a missing key raises and some record has no [chain]
    annotation; when a missing key reads as [None], such a record is just
    not selected. *)
Theorem truncate_names_raises (annotated_seqs : list (Sequence num)) :
  (raises (truncate_names miss annotated_seqs) = true ↔
   miss = MissingRaises ∧ Exists (λ s, annotations s !! "chain" = None) annotated_seqs)
  ∧ (∀ e, truncate_names miss annotated_seqs = Raise e → e = KeyError)
  ∧ (∀ s : Sequence num,
       annotations s !! "chain" = None → is_pct64_heavy MissingIsNone s = Ok false).
Proof.
  unfold truncate_names, pct64_seqs, mbind, mret, result_bind, result_ret.
  pose proof (select_from_outcome annotated_seqs 0) as Hsel.
  destruct (select_from miss 0 annotated_seqs) as [ks|e]; simpl.
  - split; [|split].
    + split; [discriminate|]. intros [Hm Hex]. exfalso.
      apply Exists_exists in Hex as (s & Hin & Hc).
      rewrite Forall_forall in Hsel. destruct (Hsel s Hin) as [b Hb].
      pose proof (is_pct64_heavy_outcome s) as Hs. rewrite Hc, Hm in Hs. congruence.
    + discriminate.
    + intros s Hc. unfold is_pct64_heavy, seq_getitem. rewrite Hc. simpl.
      rewrite andb_false_r. reflexivity.
  - destruct Hsel as (-> & Hm & Hex). split; [|split].
    + split; auto.
    + intros e [= <-]. reflexivity.
    + intros s Hc. unfold is_pct64_heavy, seq_getitem. rewrite Hc. simpl.
      rewrite andb_false_r. reflexivity.
Qed.

(** *** Running the cells again *)

Lemma is_pct64_heavy_truncate (s : Sequence num) (b : bool) :
  is_pct64_heavy miss s = Ok b → ∃ b', is_pct64_heavy miss (truncate s) = Ok b'.
Proof.
  unfold is_pct64_heavy, seq_getitem, truncate, seq_setitem, set_id. simpl.
  rewrite lookup_insert_ne by discriminate.
  destruct (annotations s !! "chain"); [eauto|]. destruct miss; [discriminate|eauto].
Qed.

(** X13.  Running the two cells a second time changes nothing: the selection
    does not raise, and every record it selects is one that the first run
    left in its final form. *)
Theorem truncate_names_twice (annotated_seqs store' : list (Sequence num)) :
  truncate_names miss annotated_seqs = Ok store' →
  truncate_names miss store' = Ok store'.
Proof.
  unfold truncate_names, pct64_seqs, mbind, mret, result_bind, result_ret.
  destruct (select_from miss 0 annotated_seqs) as [selected|e] eqn:Hsel; [|discriminate].
  intros [= <-].
  assert (Hstore : ∀ i s', truncate_loop annotated_seqs selected !! i = Some s' →
            ∃ s, annotated_seqs !! i = Some s
              ∧ ((s' = truncate s ∧ ∃ b, is_pct64_heavy miss s = Ok b)
                 ∨ (s' = s ∧ is_pct64_heavy miss s = Ok false))).
  { intros i s'. rewrite truncate_loop_lookup.
    destruct (annotated_seqs !! i) as [s|] eqn:Hi;
      [|destruct (decide (i ∈ selected)); discriminate].
    destruct (select_from_spec miss _ _ _ Hsel i s Hi) as [[Hs Hin]|[Hs Hnin]]; simpl in *.
    - destruct (decide (i ∈ selected)); [|contradiction].
      simpl. intros [= <-]. exists s. split; [reflexivity|]. left. eauto.
    - destruct (decide (i ∈ selected)); [contradiction|].
      intros [= <-]. exists s. split; [reflexivity|]. right. auto. }
  destruct (select_from_total (truncate_loop annotated_seqs selected) 0) as [again Hagain].
  { apply Forall_lookup. intros i s' Hi.
    destruct (Hstore i s' Hi) as (s & _ & [[-> [b Hb]]|[-> Hb]]).
    - eapply is_pct64_heavy_truncate, Hb.
    - eauto. }
  rewrite Hagain. f_equal. apply list_eq. intros i. rewrite truncate_loop_lookup.
  destruct (decide (i ∈ again)) as [Hin|]; [|reflexivity].
  destruct (truncate_loop annotated_seqs selected !! i) as [s'|] eqn:Hi; [|reflexivity].
  simpl. f_equal.
  destruct (Hstore i s' Hi) as (s & _ & [[-> _]|[-> Hb]]).
  - apply truncate_idemp.
  - exfalso. destruct (select_from_spec miss _ _ _ Hagain i s Hi) as [[Hs _]|[_ Hnin]];
      simpl in *; [congruence|contradiction].
Qed.
End TruncateNamesMore.

Section TutorialSamples.
Import Tutorial Samples.

Example truncate_names_sample :
  truncate_names MissingRaises loaded_sample = Ok truncated_sample.
Proof. vm_compute. reflexivity. Qed.

(** X14 on the sample records *)
Lemma truncate_names_frame_witness :
  truncate_names MissingRaises loaded_sample = Ok truncated_sample
  ∧ length truncated_sample = length loaded_sample.
Proof.
  assert (H : truncate_names MissingRaises loaded_sample = Ok truncated_sample)
    by (vm_compute; reflexivity).
  split; [exact H|].
  apply (truncate_names_frame MissingRaises loaded_sample truncated_sample H).
Defined.
End TutorialSamples.

Section TutorialMoreSamples.
Import Tutorial Samples.

(** X13 on the sample records: the cells of the truncation, run twice *)
Lemma truncate_names_twice_witness :
  truncate_names MissingRaises loaded_sample = Ok truncated_sample
  ∧ truncate_names MissingRaises truncated_sample = Ok truncated_sample.
Proof.
  assert (H : truncate_names MissingRaises loaded_sample = Ok truncated_sample)
    by (vm_compute; reflexivity).
  split; [exact H|].
  apply (truncate_names_twice MissingRaises loaded_sample truncated_sample H).
Defined.
End TutorialMoreSamples.

(** ** The Pair Assigner *)

Section PairAssignerFacts.
Import PairAssigner.
Context {num : Type}.

Lemma elem_of_all_members (pairs : list (Pair num)) (s : Sequence num) :
  s ∈ all_members pairs ↔ ∃ p, p ∈ pairs ∧ s ∈ members p.
Proof.
  unfold all_members. rewrite list_elem_of_In, in_concat. split.
  - intros (l & Hl & Hs). apply in_map_iff in Hl as (p & <- & Hp).
    exists p. rewrite !list_elem_of_In. auto.
  - intros (p & Hp & Hs). exists (members p). rewrite <- !list_elem_of_In.
    split; [|exact Hs]. rewrite list_elem_of_In. apply in_map.
    rewrite <- list_elem_of_In. exact Hp.
Qed.

Lemma add_record_names (key : string) (s : Sequence num) (pairs : list (Pair num)) :
  List.map name (add_record key s pairs) =
  if decide (key ∈ List.map name pairs) then List.map name pairs
  else List.map name pairs ++ [key].
Proof.
  induction pairs as [|p rest IH]; simpl.
  - destruct (decide (key ∈ [])) as [Hin|_]; [|reflexivity].
    apply elem_of_nil in Hin. contradiction.
  - destruct (String.eqb (name p) key) eqn:E.
    + apply String.eqb_eq in E. simpl.
      destruct (decide (key ∈ name p :: List.map name rest)) as [_|Hn]; [reflexivity|].
      exfalso. apply Hn. rewrite E. left.
    + apply String.eqb_neq in E. simpl. rewrite IH.
      destruct (decide (key ∈ List.map name rest)) as [Hin|Hnin],
               (decide (key ∈ name p :: List.map name rest)) as [Hin'|Hnin'];
        try reflexivity.
      * exfalso. apply Hnin'. right. exact Hin.
      * exfalso. apply elem_of_cons in Hin' as [Heq|Hin']; [congruence|contradiction].
Qed.

Lemma add_record_NoDup (key : string) (s : Sequence num) (pairs : list (Pair num)) :
  NoDup (List.map name pairs) → NoDup (List.map name (add_record key s pairs)).
Proof.
  intros Hnd. rewrite add_record_names.
  destruct (decide (key ∈ List.map name pairs)) as [|Hnin]; [exact Hnd|].
  apply NoDup_app. split; [exact Hnd|]. split.
  - intros x Hx Hk. apply list_elem_of_singleton in Hk as ->. contradiction.
  - apply NoDup_singleton.
Qed.

Lemma add_record_members (key : string) (s : Sequence num) (pairs : list (Pair num)) :
  all_members (add_record key s pairs) ≡ₚ all_members pairs ++ [s].
Proof.
  unfold all_members. induction pairs as [|p rest IH]; simpl.
  - reflexivity.
  - destruct (String.eqb (name p) key); simpl.
    + rewrite <- !app_assoc. apply Permutation_app_head.
      apply Permutation_app_comm.
    + rewrite IH, app_assoc. reflexivity.
Qed.

Lemma add_record_keyed (delim : string) (s : Sequence num) (pairs : list (Pair num)) :
  keyed delim pairs → keyed delim (add_record (split_head delim (id s)) s pairs).
Proof.
  unfold keyed. induction pairs as [|p rest IH]; intros Hk q r Hq Hr; simpl in Hq.
  - apply list_elem_of_singleton in Hq as ->. simpl in *.
    apply list_elem_of_singleton in Hr as ->. reflexivity.
  - destruct (String.eqb (name p) (split_head delim (id s))) eqn:E.
    + apply String.eqb_eq in E. apply elem_of_cons in Hq as [->|Hq]; simpl in *.
      * apply elem_of_app in Hr as [Hr|Hr].
        -- apply (Hk p r); [left|exact Hr].
        -- apply list_elem_of_singleton in Hr as ->. congruence.
      * apply (Hk q r); [right; exact Hq|exact Hr].
    + apply elem_of_cons in Hq as [->|Hq].
      * apply (Hk p r); [left|exact Hr].
      * apply IH; [|exact Hq|exact Hr].
        intros q' r' Hq' Hr'. apply (Hk q' r'); [right; exact Hq'|exact Hr'].
Qed.

Lemma filter_key_nil (delim key : string) (seen : list (Sequence num))
    (pairs : list (Pair num)) :
  (∀ s, s ∈ seen → split_head delim (id s) ∈ List.map name pairs) →
  key ∉ List.map name pairs →
  List.filter (has_key delim key) seen = [].
Proof.
  intros Hkeys Hnin. induction seen as [|r seen IH]; [reflexivity|]. simpl.
  destruct (has_key delim key r) eqn:E.
  - exfalso. apply String.eqb_eq in E. apply Hnin. rewrite <- E.
    apply Hkeys. left.
  - apply IH. intros s Hs. apply Hkeys. right. exact Hs.
Qed.

Lemma elem_of_names (pairs : list (Pair num)) (p : Pair num) :
  p ∈ pairs → name p ∈ List.map name pairs.
Proof.
  intros Hp. rewrite list_elem_of_In. apply in_map. rewrite <- list_elem_of_In. exact Hp.
Qed.

Lemma add_record_membered (delim : string) (s : Sequence num)
    (seen : list (Sequence num)) (pairs : list (Pair num)) :
  NoDup (List.map name pairs) →
  membered delim seen pairs →
  membered delim (seen ++ [s]) (add_record (split_head delim (id s)) s pairs).
Proof.
  intros Hnd [Hmem Hkeys]. split.
  - pose proof (filter_key_nil delim (split_head delim (id s)) seen pairs Hkeys) as Hnew.
    clear Hkeys. induction pairs as [|q rest IH]; intros p Hp; simpl in Hp.
    + apply list_elem_of_singleton in Hp as ->. simpl.
      rewrite List.filter_app, Hnew.
      * simpl. unfold has_key. rewrite String.eqb_refl. reflexivity.
      * intros Hin. apply elem_of_nil in Hin. exact Hin.
    + simpl in Hnd. apply NoDup_cons in Hnd as [Hq Hnd].
      destruct (String.eqb (name q) (split_head delim (id s))) eqn:E.
      * apply elem_of_cons in Hp as [->|Hp]; simpl.
        -- assert (Hs : has_key delim (name q) s = true)
             by (unfold has_key; rewrite String.eqb_sym; exact E).
           rewrite List.filter_app, (Hmem q) by left. simpl. rewrite Hs. reflexivity.
        -- rewrite List.filter_app, (Hmem p) by (right; exact Hp). simpl.
           destruct (has_key delim (name p) s) eqn:Ep; [|rewrite app_nil_r; reflexivity].
           exfalso. apply String.eqb_eq in E, Ep. apply Hq.
           rewrite E, Ep. apply elem_of_names, Hp.
      * apply elem_of_cons in Hp as [->|Hp].
        -- assert (Hs : has_key delim (name q) s = false)
             by (unfold has_key; rewrite String.eqb_sym; exact E).
           rewrite List.filter_app, (Hmem q) by left. simpl. rewrite Hs.
           rewrite app_nil_r. reflexivity.
        -- apply IH; [exact Hnd| | |exact Hp].
           ++ intros p' Hp'. apply Hmem. right. exact Hp'.
           ++ intros Hnin. apply Hnew. intros Hin. simpl in Hin.
              apply elem_of_cons in Hin as [Heq|Hin]; [|contradiction].
              apply String.eqb_neq in E. congruence.
  - intros r Hr. rewrite add_record_names.
    destruct (decide (split_head delim (id s) ∈ List.map name pairs)) as [Hin|Hnin].
    + apply elem_of_app in Hr as [Hr|Hr]; [apply Hkeys, Hr|].
      apply list_elem_of_singleton in Hr as ->. exact Hin.
    + apply elem_of_app. apply elem_of_app in Hr as [Hr|Hr]; [left; apply Hkeys, Hr|].
      apply list_elem_of_singleton in Hr as ->. right. left.
Qed.

(** The invariant of the loop of [assign_pairs] *)
Lemma assign_pairs_loop (delim : string) (seqs seen : list (Sequence num))
    (acc : list (Pair num)) :
  NoDup (List.map name acc) → keyed delim acc → membered delim seen acc →
  let pairs := fold_left (λ pairs s, add_record (split_head delim (id s)) s pairs) seqs acc in
  NoDup (List.map name pairs) ∧ keyed delim pairs
  ∧ membered delim (seen ++ seqs) pairs
  ∧ all_members pairs ≡ₚ all_members acc ++ seqs.
Proof.
  revert seen acc. induction seqs as [|s seqs IH]; intros seen acc Hnd Hk Hm; simpl.
  - rewrite !app_nil_r. auto.
  - destruct (IH (seen ++ [s]) (add_record (split_head delim (id s)) s acc))
      as (H1 & H2 & H3 & H4).
    + apply add_record_NoDup, Hnd.
    + apply add_record_keyed, Hk.
    + apply add_record_membered; assumption.
    + split; [exact H1|]. split; [exact H2|]. split.
      * rewrite <- app_assoc in H3. exact H3.
      * rewrite H4, add_record_members, <- app_assoc. reflexivity.
Qed.

Lemma assign_pairs_invariant (seqs : list (Sequence num)) (delim : string) :
  let pairs := assign_pairs seqs delim in
  NoDup (List.map name pairs) ∧ keyed delim pairs
  ∧ membered delim seqs pairs ∧ all_members pairs ≡ₚ seqs.
Proof.
  apply (assign_pairs_loop delim seqs [] []).
  - constructor.
  - intros p s Hp. apply elem_of_nil in Hp. contradiction.
  - split.
    + intros p Hp. apply elem_of_nil in Hp. contradiction.
    + intros s Hs. apply elem_of_nil in Hs. contradiction.
Qed.

(** C2.  [is_pair] holds of a Pair exactly when it has one heavy and one
    light record; every other count of either chain, none or several,
    gives a Pair that is not a true pair, and records of unrecognized
    chain do not count.  For a Pair made by [assign_pairs] the records
    counted are the given records of the Pair's key. *)
Theorem is_pair_exactly_one (p : Pair num) :
  (is_pair p = true ↔ length (heavies p) = 1%nat ∧ length (lights p) = 1%nat)
  ∧ (is_pair p = false ↔ length (heavies p) ≠ 1%nat ∨ length (lights p) ≠ 1%nat)
  ∧ (∀ s, chain_of s = Unknown →
       is_pair (mkPair (name p) (members p ++ [s])) = is_pair p)
  ∧ (∀ seqs delim, p ∈ assign_pairs seqs delim →
       let of_key := List.filter (has_key delim (name p)) seqs in
       members p = of_key
       ∧ (is_pair p = true ↔
          length (List.filter is_heavy of_key) = 1%nat
          ∧ length (List.filter is_light of_key) = 1%nat)).
Proof.
  assert (Hiff : is_pair p = true ↔ length (heavies p) = 1%nat ∧ length (lights p) = 1%nat).
  { unfold is_pair. rewrite andb_true_iff, !Nat.eqb_eq. reflexivity. }
  split; [exact Hiff|]. split; [|split].
  - unfold is_pair. rewrite andb_false_iff, !Nat.eqb_neq. reflexivity.
  - intros s Hs. unfold is_pair, heavies, lights. simpl.
    rewrite !List.filter_app. simpl. unfold is_heavy, is_light. rewrite Hs.
    rewrite !app_nil_r. reflexivity.
  - intros seqs delim Hp of_key.
    destruct (assign_pairs_invariant seqs delim) as (_ & _ & [Hmem _] & _).
    specialize (Hmem p Hp). fold of_key in Hmem. split; [exact Hmem|].
    rewrite Hiff. unfold heavies, lights. rewrite Hmem. reflexivity.
Qed.

Lemma same_name_same_pair (pairs : list (Pair num)) (p q : Pair num) :
  NoDup (List.map name pairs) → p ∈ pairs → q ∈ pairs → name p = name q → p = q.
Proof.
  induction pairs as [|a rest IH]; simpl; intros Hnd Hp Hq Hname.
  - apply elem_of_nil in Hp. contradiction.
  - apply NoDup_cons in Hnd as [Ha Hnd].
    assert (Hin : ∀ x, x ∈ rest → name x ∈ List.map name rest).
    { intros x Hx. rewrite list_elem_of_In. apply in_map. rewrite <- list_elem_of_In. exact Hx. }
    apply elem_of_cons in Hp as [->|Hp]; apply elem_of_cons in Hq as [->|Hq].
    + reflexivity.
    + exfalso. apply Ha. rewrite Hname. apply Hin, Hq.
    + exfalso. apply Ha. rewrite <- Hname. apply Hin, Hp.
    + apply IH; assumption.
Qed.

(** C3.  [assign_pairs] partitions the records: the members of the Pairs
    are the records, each as often as it was given; every record is in
    exactly one Pair; and two records are in the same Pair exactly when
    their identifiers agree before the first occurrence of the delimiter.
    The records A_1 (heavy), A_2 (light) and B_1 (heavy) give the true pair
    A and the Pair B, which is not one. *)
Theorem assign_pairs_partition (seqs : list (Sequence num)) (delim : string) :
  let pairs := assign_pairs seqs delim in
  all_members pairs ≡ₚ seqs
  ∧ (∀ s, s ∈ seqs → exists! p, p ∈ pairs ∧ s ∈ members p)
  ∧ (∀ s1 s2, s1 ∈ seqs → s2 ∈ seqs →
       (∃ p, p ∈ pairs ∧ s1 ∈ members p ∧ s2 ∈ members p)
       ↔ split_head delim (id s1) = split_head delim (id s2))
  ∧ (let a1 : Sequence num := labelled "A_1" "heavy" in
     let a2 : Sequence num := labelled "A_2" "light" in
     let b1 : Sequence num := labelled "B_1" "heavy" in
     assign_pairs [a1; a2; b1] "_" = [mkPair "A" [a1; a2]; mkPair "B" [b1]]
     ∧ heavies (mkPair "A" [a1; a2]) = [a1] ∧ lights (mkPair "A" [a1; a2]) = [a2]
     ∧ is_pair (mkPair "A" [a1; a2]) = true
     ∧ heavies (mkPair "B" [b1]) = [b1] ∧ lights (mkPair "B" [b1]) = []
     ∧ is_pair (mkPair "B" [b1]) = false).
Proof.
  intros pairs.
  destruct (assign_pairs_invariant seqs delim) as (Hnd & Hk & _ & Hperm).
  fold pairs in Hnd, Hk, Hperm.
  assert (Hex : ∀ s, s ∈ seqs → ∃ p, p ∈ pairs ∧ s ∈ members p).
  { intros s Hs. apply elem_of_all_members. rewrite Hperm. exact Hs. }
  split; [exact Hperm|]. split; [|split].
  - intros s Hs. destruct (Hex s Hs) as (p & Hp & Hsp).
    exists p. split; [auto|]. intros q [Hq Hsq].
    apply (same_name_same_pair pairs); try assumption.
    rewrite <- (Hk p s Hp Hsp), <- (Hk q s Hq Hsq). reflexivity.
  - intros s1 s2 Hs1 Hs2. split.
    + intros (p & Hp & H1 & H2). rewrite (Hk p s1 Hp H1), (Hk p s2 Hp H2). reflexivity.
    + intros Hkey. destruct (Hex s1 Hs1) as (p & Hp & H1).
      destruct (Hex s2 Hs2) as (q & Hq & H2).
      assert (p = q) as <-.
      { apply (same_name_same_pair pairs); try assumption.
        rewrite <- (Hk p s1 Hp H1), <- (Hk q s2 Hq H2). exact Hkey. }
      eauto.
  - vm_compute. repeat split.
Qed.
End PairAssignerFacts.

(** ** The Cluster Engine *)

Lemma filter_split_Permutation {A} (f : A → bool) (l : list A) :
  List.filter f l ++ List.filter (λ x, negb (f x)) l ≡ₚ l.
Proof.
  induction l as [|x l IH]; simpl; [reflexivity|].
  destruct (f x); simpl.
  - rewrite IH. reflexivity.
  - rewrite <- Permutation_middle, IH. reflexivity.
Qed.

Section ClusterEngineFacts.
Import ClusterEngine.
Context {num : Type}.
Variable similarity : Sequence num → Sequence num → Q.

Lemma Qlt_bool_lt (a b : Q) : Qlt_bool a b = true → (a < b)%Q.
Proof.
  unfold Qlt_bool. intros H. apply negb_true_iff in H.
  apply Qnot_le_lt. intros Hle. apply Qle_bool_iff in Hle. congruence.
Qed.

Lemma greedy_records (threshold : Q) (records : list (Sequence num)) :
  all_records (greedy similarity threshold records) ≡ₚ records.
Proof.
  unfold all_records.
  funelim (greedy similarity threshold records); simp greedy; simpl.
  - reflexivity.
  - apply Permutation_skip.
    match goal with IH : concat _ ≡ₚ _ |- _ => rewrite IH end.
    apply filter_split_Permutation.
Qed.

Lemma greedy_threshold (threshold : Q) (records : list (Sequence num)) :
  ∀ c r, c ∈ greedy similarity threshold records → r ∈ others c →
    (threshold < similarity (centroid c) r)%Q.
Proof.
  funelim (greedy similarity threshold records); simp greedy; intros cl r Hcl Hr.
  - apply elem_of_nil in Hcl. contradiction.
  - apply elem_of_cons in Hcl as [->|Hcl].
    + simpl in Hr. rewrite list_elem_of_In in Hr.
      apply List.filter_In in Hr as [_ Hj]. simpl. apply Qlt_bool_lt, Hj.
    + eauto.
Qed.

(** *** The largest cluster *)

Lemma fold_larger_first (rest seen : list (Cluster num)) (best : Cluster num) :
  first_largest seen best → first_largest (seen ++ rest) (fold_left larger rest best).
Proof.
  revert seen best. induction rest as [|x rest IH]; intros seen best Hbest; simpl.
  - rewrite app_nil_r. exact Hbest.
  - replace (seen ++ x :: rest) with ((seen ++ [x]) ++ rest)
      by (rewrite <- app_assoc; reflexivity).
    apply IH. destruct Hbest as (i & Hi & Hmax & Hfirst).
    unfold larger. destruct (size best <? size x)%nat eqn:E.
    + apply Nat.ltb_lt in E. exists (length seen). repeat split.
      * rewrite lookup_app_r, Nat.sub_diag; [reflexivity|lia].
      * intros c Hc. apply elem_of_app in Hc as [Hc|Hc].
        -- specialize (Hmax c Hc). lia.
        -- apply list_elem_of_singleton in Hc as ->. lia.
      * intros j c Hj Hc. rewrite lookup_app_l in Hc by exact Hj.
        assert (c ∈ seen) as Hin by (apply list_elem_of_lookup; eauto).
        specialize (Hmax c Hin). lia.
    + apply Nat.ltb_ge in E. exists i. repeat split.
      * apply lookup_app_l_Some. exact Hi.
      * intros c Hc. apply elem_of_app in Hc as [Hc|Hc]; [auto|].
        apply list_elem_of_singleton in Hc as ->. exact E.
      * intros j c Hj Hc. apply (Hfirst j c Hj).
        apply lookup_lt_Some in Hi. rewrite lookup_app_l in Hc by lia. exact Hc.
Qed.

Lemma largest_cluster_first (clusters : list (Cluster num)) (best : Cluster num) :
  largest_cluster clusters = Some best → first_largest clusters best.
Proof.
  destruct clusters as [|c rest]; [discriminate|].
  intros [= <-]. apply (fold_larger_first rest [c] c).
  exists 0%nat. repeat split.
  - intros c' Hc'. apply list_elem_of_singleton in Hc' as ->. lia.
  - intros j c' Hj. lia.
Qed.

(** C5.  The clusters partition the records: their members are the
    records, each as often as it was given, so that distinct records fall
    into disjoint clusters.  Every member of a cluster other than its
    centroid has an identity to the centroid above the threshold, hence at
    least the threshold.  [largest_cluster] is a cluster of maximum size
    and every cluster before it is smaller; there is none only when there
    is no record. *)
Theorem cluster_partition (records : list (Sequence num)) (threshold : Q) :
  let clusters := cluster similarity records threshold in
  all_records clusters ≡ₚ records
  ∧ (NoDup records → NoDup (all_records clusters))
  ∧ (∀ r, r ∈ records → ∃ c, c ∈ clusters ∧ r ∈ seqs c)
  ∧ (∀ c r, c ∈ clusters → r ∈ others c →
       (threshold <= similarity (centroid c) r)%Q)
  ∧ match largest_cluster clusters with
    | Some best => first_largest clusters best
    | None => records = []
    end.
Proof.
  intros clusters.
  assert (Hperm : all_records clusters ≡ₚ records).
  { unfold clusters, cluster. rewrite greedy_records.
    apply merge_sort_Permutation. }
  split; [exact Hperm|]. split; [|split; [|split]].
  - intros Hnd. rewrite Hperm. exact Hnd.
  - intros r Hr. rewrite <- Hperm in Hr. unfold all_records in Hr.
    rewrite list_elem_of_In in Hr. apply in_concat in Hr as (l & Hl & Hrl).
    apply in_map_iff in Hl as (c & <- & Hc).
    exists c. rewrite !list_elem_of_In. auto.
  - intros c r Hc Hr. apply Qlt_le_weak.
    apply (greedy_threshold threshold (sort_records records) c r Hc Hr).
  - destruct (largest_cluster clusters) as [best|] eqn:E.
    + apply largest_cluster_first, E.
    + destruct clusters as [|c rest] eqn:Hcl; [|discriminate].
      simpl in Hperm. apply Permutation_nil in Hperm. exact Hperm.
Qed.
End ClusterEngineFacts.

(** ** The Lineage Grouper *)

Lemma partition_concat {A} (f : list A → bool) (groups hit rest : list (list A)) :
  List.partition f groups = (hit, rest) →
  concat hit ++ concat rest ≡ₚ concat groups.
Proof.
  revert hit rest. induction groups as [|g groups IH]; intros hit rest; simpl.
  - intros [= <- <-]. reflexivity.
  - destruct (List.partition f groups) as [h r]. specialize (IH h r eq_refl).
    destruct (f g); intros [= <- <-]; simpl.
    + rewrite <- app_assoc, IH. reflexivity.
    + rewrite <- IH, !app_assoc. apply Permutation_app_tail, Permutation_app_comm.
Qed.

Lemma elem_of_concat {A} (x : A) (groups : list (list A)) :
  x ∈ concat groups ↔ ∃ g, g ∈ groups ∧ x ∈ g.
Proof.
  rewrite list_elem_of_In, in_concat. split; intros (g & H1 & H2); exists g.
  - rewrite !list_elem_of_In. auto.
  - rewrite <- !list_elem_of_In. auto.
Qed.

(** Groups that are disjoint and share an element are the same group. *)
Lemma NoDup_concat_same {A} (groups : list (list A)) (g1 g2 : list A) (x : A) :
  NoDup (concat groups) → g1 ∈ groups → g2 ∈ groups → x ∈ g1 → x ∈ g2 → g1 = g2.
Proof.
  induction groups as [|g groups IH]; simpl; intros Hnd H1 H2 Hx1 Hx2.
  - apply elem_of_nil in H1. contradiction.
  - apply NoDup_app in Hnd as (_ & Hdisj & Hnd).
    apply elem_of_cons in H1 as [->|H1]; apply elem_of_cons in H2 as [->|H2].
    + reflexivity.
    + exfalso. apply (Hdisj x Hx1). apply elem_of_concat. eauto.
    + exfalso. apply (Hdisj x Hx2). apply elem_of_concat. eauto.
    + apply IH; assumption.
Qed.

Section LineageGrouperFacts.
Import LineageGrouper.
Context {num : Type}.
Variable designated : Zika.Pair num → option (Sequence num).
Variable v_call j_call : Sequence num → string.
Variable identity : Sequence num → Sequence num → Q.
Variable threshold : Q.

Local Abbreviation pair := (Zika.Pair num).
Local Abbreviation similar := (LineageGrouper.similar designated v_call j_call identity threshold).
Local Abbreviation linked := (LineageGrouper.linked designated v_call j_call identity threshold).
Local Abbreviation add_pair := (LineageGrouper.add_pair designated v_call j_call identity threshold).
Local Abbreviation group_lineages := (LineageGrouper.group_lineages designated v_call j_call identity threshold).
Local Abbreviation similar_in := (LineageGrouper.similar_in designated v_call j_call identity threshold).
Local Abbreviation chained := (LineageGrouper.chained designated v_call j_call identity threshold).
Local Abbreviation grouped := (LineageGrouper.grouped designated v_call j_call identity threshold).

Lemma chained_mono (input : list pair) (p : pair) (x y : pair) :
  chained input x y → chained (input ++ [p]) x y.
Proof.
  apply (rtsc_congruence (λ z, z)). intros a b (Ha & Hb & Hab).
  repeat split; try assumption; apply elem_of_app; auto.
Qed.

Lemma linked_member (p : pair) (g : list pair) :
  linked p g = true ↔ ∃ q, q ∈ g ∧ (similar p q = true ∨ similar q p = true).
Proof.
  unfold LineageGrouper.linked. rewrite existsb_exists. split.
  - intros (q & Hq & Hs). exists q. rewrite list_elem_of_In.
    apply orb_true_iff in Hs. auto.
  - intros (q & Hq & Hs). exists q. rewrite <- list_elem_of_In.
    split; [exact Hq|]. apply orb_true_iff. exact Hs.
Qed.

Lemma add_pair_groups (groups : list (list pair)) (p : pair) :
  ∃ hit rest, List.partition (linked p) groups = (hit, rest)
    ∧ add_pair groups p = rest ++ [concat hit ++ [p]]
    ∧ (∀ g, g ∈ groups ↔ g ∈ hit ∨ g ∈ rest)
    ∧ (∀ g, g ∈ hit → linked p g = true).
Proof.
  unfold LineageGrouper.add_pair.
  destruct (List.partition (linked p) groups) as [hit rest] eqn:E.
  exists hit, rest. split; [reflexivity|]. split; [reflexivity|].
  rewrite List.partition_as_filter in E. injection E as <- <-. split.
  - intros g. rewrite !list_elem_of_In, !List.filter_In.
    destruct (linked p g); simpl; intuition congruence.
  - intros g. rewrite list_elem_of_In, List.filter_In. intros [_ H]. exact H.
Qed.

Lemma add_pair_grouped (seen : list pair) (groups : list (list pair)) (p : pair) :
  grouped seen groups → grouped (seen ++ [p]) (add_pair groups p).
Proof.
  intros (Hperm & Hchain & Hshare).
  destruct (add_pair_groups groups p) as (hit & rest & Hpart & -> & Hsplit & Hhit).
  assert (Hmerged : ∀ z, z ∈ concat hit ++ [p] → chained (seen ++ [p]) z p).
  { intros z Hz. apply elem_of_app in Hz as [Hz|Hz].
    - apply elem_of_concat in Hz as (h & Hh & Hz).
      destruct (proj1 (linked_member p h) (Hhit h Hh)) as (q & Hq & Hs).
      assert (Hg : h ∈ groups) by (apply Hsplit; auto).
      assert (Hqseen : q ∈ seen ++ [p]).
      { apply elem_of_app. left. rewrite <- Hperm. apply elem_of_concat. eauto. }
      assert (Hp : p ∈ seen ++ [p]) by (apply elem_of_app; right; left).
      transitivity q.
      + apply chained_mono. apply (Hchain h); assumption.
      + destruct Hs as [Hs|Hs].
        * apply rtsc_rl. repeat split; assumption.
        * apply rtsc_lr. repeat split; assumption.
    - apply list_elem_of_singleton in Hz as ->. reflexivity. }
  assert (Hin_merged : ∀ y, y ∈ seen → (similar p y = true ∨ similar y p = true) →
                        y ∈ concat hit ++ [p]).
  { intros y Hy Hs. rewrite <- Hperm in Hy. apply elem_of_concat in Hy as (g & Hg & Hyg).
    apply elem_of_app. left. apply elem_of_concat. exists g. split; [|exact Hyg].
    apply Hsplit in Hg as [Hg|Hg]; [exact Hg|].
    exfalso. rewrite List.partition_as_filter in Hpart. injection Hpart as _ <-.
    rewrite list_elem_of_In in Hg. apply List.filter_In in Hg as [_ Hg].
    assert (linked p g = true) as Hl by (apply linked_member; eauto).
    rewrite Hl in Hg. discriminate. }
  assert (Hlast : concat hit ++ [p] ∈ rest ++ [concat hit ++ [p]]).
  { apply elem_of_app. right. left. }
  assert (Hp_merged : p ∈ concat hit ++ [p]) by (apply elem_of_app; right; left).
  split; [|split].
  - rewrite concat_app. simpl. rewrite app_nil_r, <- Hperm.
    rewrite <- (partition_concat _ _ _ _ Hpart).
    rewrite app_assoc. apply Permutation_app_tail, Permutation_app_comm.
  - intros g x y Hg Hx Hy. apply elem_of_app in Hg as [Hg|Hg].
    + apply chained_mono. apply (Hchain g); try assumption. apply Hsplit. auto.
    + apply list_elem_of_singleton in Hg as ->.
      transitivity p; [apply Hmerged, Hx|]. symmetry. apply Hmerged, Hy.
  - intros x y Hx Hy Hs.
    apply elem_of_app in Hx as [Hx|Hx]; apply elem_of_app in Hy as [Hy|Hy].
    + destruct (Hshare x y Hx Hy Hs) as (g & Hg & Hxg & Hyg).
      apply Hsplit in Hg as [Hg|Hg].
      * exists (concat hit ++ [p]). split; [exact Hlast|].
        split; apply elem_of_app; left; apply elem_of_concat; eauto.
      * exists g. split; [apply elem_of_app; auto|auto].
    + apply list_elem_of_singleton in Hy as ->.
      exists (concat hit ++ [p]). split; [exact Hlast|]. split; [|exact Hp_merged].
      apply Hin_merged; auto.
    + apply list_elem_of_singleton in Hx as ->.
      exists (concat hit ++ [p]). split; [exact Hlast|]. split; [exact Hp_merged|].
      apply Hin_merged; auto.
    + apply list_elem_of_singleton in Hx as ->. apply list_elem_of_singleton in Hy as ->.
      exists (concat hit ++ [p]). auto.
Qed.

Lemma fold_add_pair_grouped (todo seen : list pair) (groups : list (list pair)) :
  grouped seen groups → grouped (seen ++ todo) (fold_left add_pair todo groups).
Proof.
  revert seen groups. induction todo as [|p todo IH]; intros seen groups Hg; simpl.
  - rewrite app_nil_r. exact Hg.
  - replace (seen ++ p :: todo) with ((seen ++ [p]) ++ todo)
      by (rewrite <- app_assoc; reflexivity).
    apply IH, add_pair_grouped, Hg.
Qed.

Lemma group_lineages_grouped (pairs : list pair) :
  grouped (List.filter (has_chain designated) pairs) (group_lineages pairs).
Proof.
  apply (fold_add_pair_grouped _ [] []). split; [reflexivity|]. split.
  - intros g x y Hg. apply elem_of_nil in Hg. contradiction.
  - intros x y Hx. apply elem_of_nil in Hx. contradiction.
Qed.

(** C4.  For pairs that are all distinct, [group_lineages] partitions the
    pairs that have the designated chain: the members of the Lineages are
    these pairs, none twice and none lost, the others being the unassigned
    ones.  Two of them share a Lineage exactly when a chain of similar
    pairs joins them; so when A is similar to B and B to C, the three share
    one Lineage, whether or not A is similar to C. *)
Theorem group_lineages_single_linkage (pairs : list pair) :
  NoDup pairs →
  let assigned := List.filter (has_chain designated) pairs in
  let lineages := group_lineages pairs in
  concat lineages ≡ₚ assigned
  ∧ concat lineages ++ unassigned designated pairs ≡ₚ pairs
  ∧ NoDup (concat lineages)
  ∧ (∀ p, p ∈ assigned → exists! g, g ∈ lineages ∧ p ∈ g)
  ∧ (∀ p q, p ∈ assigned → q ∈ assigned →
       share lineages p q ↔ chained assigned p q)
  ∧ (∀ a b c, a ∈ assigned → b ∈ assigned → c ∈ assigned →
       similar a b = true → similar b c = true →
       ∃ g, g ∈ lineages ∧ a ∈ g ∧ b ∈ g ∧ c ∈ g).
Proof.
  intros Hnd assigned lineages.
  destruct (group_lineages_grouped pairs) as (Hperm & Hchain & Hshare).
  fold assigned lineages in Hperm, Hchain, Hshare.
  assert (Hnd' : NoDup (concat lineages)).
  { rewrite Hperm. unfold assigned. apply NoDup_ListNoDup, List.NoDup_filter.
    apply NoDup_ListNoDup, Hnd. }
  assert (Hsame : ∀ g1 g2 x, g1 ∈ lineages → g2 ∈ lineages → x ∈ g1 → x ∈ g2 → g1 = g2).
  { intros g1 g2 x. apply NoDup_concat_same, Hnd'. }
  assert (Hsome : ∀ p, p ∈ assigned → ∃ g, g ∈ lineages ∧ p ∈ g).
  { intros p Hp. apply elem_of_concat. rewrite Hperm. exact Hp. }
  split; [exact Hperm|]. split; [|split; [exact Hnd'|split; [|split]]].
  - rewrite Hperm. apply filter_split_Permutation.
  - intros p Hp. destruct (Hsome p Hp) as (g & Hg & Hpg).
    exists g. split; [auto|]. intros g' [Hg' Hpg']. eapply Hsame; eauto.
  - intros p q Hp Hq. split.
    + intros (g & Hg & Hpg & Hqg). eapply Hchain; eauto.
    + intros Hpq. clear Hq. revert Hp.
      induction Hpq as [x|x y z Hxy Hyz IH]; intros Hx.
      * destruct (Hsome x Hx) as (g & Hg & Hxg). exists g. auto.
      * assert (Hy : y ∈ assigned) by (destruct Hxy as [(?&?&?)|(?&?&?)]; assumption).
        assert (Hxy' : share lineages x y).
        { destruct Hxy as [(_&_&Hs)|(_&_&Hs)].
          - apply Hshare; assumption.
          - destruct (Hshare y x Hy Hx Hs) as (g & Hg & H1 & H2). exists g. auto. }
        destruct Hxy' as (g1 & Hg1 & Hx1 & Hy1).
        destruct (IH Hy) as (g2 & Hg2 & Hy2 & Hz2).
        assert (g1 = g2) as -> by (eapply Hsame; eauto).
        exists g2. auto.
  - intros a b c Ha Hb Hc Hab Hbc.
    destruct (Hshare a b Ha Hb Hab) as (g1 & Hg1 & Ha1 & Hb1).
    destruct (Hshare b c Hb Hc Hbc) as (g2 & Hg2 & Hb2 & Hc2).
    assert (g1 = g2) as -> by (eapply Hsame; eauto).
    exists g2. auto.
Qed.
End LineageGrouperFacts.

(** ** The grouping components on sample data *)

Section ModelSamples.
Import ClusterEngine LineageGrouper Samples.

Example group_lineages_sample :
  sample_lineages = [[pair_D]; [pair_A; pair_C; pair_B]]
  ∧ unassigned Zika.heavy sample_pairs = [pair_E]
  ∧ similar Zika.heavy (gene_call "v_gene") (gene_call "j_gene")
      hamming_identity (7 # 10) pair_A pair_C = false.
Proof. repeat split; vm_compute; reflexivity. Qed.

(** Three pairs with the V gene calls IGHV1-2, IGHV1-2, IGHV3-1, the first
    two above the threshold: a lineage of two and a lineage of one. *)
Example group_lineages_scenario :
  group_lineages Zika.heavy (gene_call "v_gene") (gene_call "j_gene")
    hamming_identity (7 # 10) [pair_A; pair_B; pair_D]
  = [[pair_A; pair_B]; [pair_D]].
Proof. vm_compute. reflexivity. Qed.

Lemma sample_pairs_NoDup : NoDup sample_pairs.
Proof.
  apply (NoDup_fmap_1 (λ p, match Zika.heavy p with Some s => id s | None => "" end)).
  vm_compute. repeat constructor; rewrite ?elem_of_cons; intros H;
    repeat (destruct H as [H|H]; [discriminate|]); apply elem_of_nil in H; exact H.
Qed.

(** C4 on the sample pairs: A, B and C share a lineage. *)
Lemma group_lineages_single_linkage_witness :
  NoDup sample_pairs
  ∧ ∃ g, g ∈ sample_lineages ∧ pair_A ∈ g ∧ pair_B ∈ g ∧ pair_C ∈ g.
Proof.
  split; [exact sample_pairs_NoDup|].
  apply (group_lineages_single_linkage Zika.heavy (gene_call "v_gene") (gene_call "j_gene")
           hamming_identity (7 # 10) sample_pairs sample_pairs_NoDup).
  - vm_compute. left.
  - vm_compute. do 3 right. left.
  - vm_compute. do 2 right. left.
  - vm_compute. reflexivity.
  - vm_compute. reflexivity.
Defined.

Example cluster_sample :
  List.map ids (cluster hamming_identity sample_records (3 # 4))
  = [["r2"; "r4"; "r1"]; ["r3"; "r5"]; ["r6"]]
  ∧ option_map ids (largest_cluster (cluster hamming_identity sample_records (3 # 4)))
    = Some ["r2"; "r4"; "r1"].
Proof. split; vm_compute; reflexivity. Qed.

(** Of two clusters of the same size, the first one is the largest. *)
Example largest_cluster_tie :
  option_map ids
    (largest_cluster
       (cluster hamming_identity
          [heavy_record "s1" "IGHV1-2" "GGGG"; heavy_record "s2" "IGHV1-2" "CCCC";
           heavy_record "s3" "IGHV1-2" "GGG"; heavy_record "s4" "IGHV1-2" "CCC"] (1 # 2)))
  = Some ["s1"; "s3"].
Proof. vm_compute. reflexivity. Qed.
End ModelSamples.
